(** * Recommender demo: data ingestion, training orchestration, prediction display

    A shallow embedding of [data.js], of its multi-source variant with the
    synthetic fallback, and of [script.js].

    - JavaScript strings are sequences of UTF-16 code units ([list N]).
    - JavaScript numbers are modelled by [Number]: the three special values
      and the finite values, the latter by their mathematical (rational)
      value.  Integers below 2^53 and short decimal fractions are the values
      the pipeline works with; binary rounding of [double] is not modelled,
      nor is the sign of zero.
    - [Math.random()] is an explicit stream of draws, the tensor engine and
      [fetch] are explicit oracles. *)

From Stdlib Require Import ZArith NArith QArith Qround Lia Lqa String Ascii.
From Stdlib Require Import DecimalN.
From stdpp Require Import base decidable list gmap sets.

Local Open Scope Z_scope.

(* ===================================================================== *)
(** ** JavaScript values *)
(* ===================================================================== *)

(** A JS string: its UTF-16 code units. *)
Abbreviation jsstring := (list N).

(** An ASCII literal as a JS string. *)
Definition js (s : string) : jsstring :=
  (fun a => N_of_ascii a) <$> list_ascii_of_string s.

(** A JS number. *)
Inductive Number : Type :=
  | NaN
  | PInf
  | NInf
  | Fin (q : Q).

Definition ofZ (z : Z) : Number := Fin (inject_Z z).

(** [x < y] on finite values, as a boolean. *)
Definition Qltb (x y : Q) : bool := negb (Qle_bool y x).

(** ECMAScript WhiteSpace and LineTerminator code points: what
    [String.prototype.trim], the [\s] class and the numeric parsers skip. *)
Definition is_ws (c : N) : bool :=
  ((c =? 9) || (c =? 10) || (c =? 11) || (c =? 12) || (c =? 13) || (c =? 32)
   || (c =? 160) || (c =? 5760) || ((8192 <=? c) && (c <=? 8202))
   || (c =? 8232) || (c =? 8233) || (c =? 8239) || (c =? 8287)
   || (c =? 12288) || (c =? 65279))%N.

Definition is_digit (c : N) : bool := ((48 <=? c) && (c <=? 57))%N.

Definition digitVal (c : N) : Z := Z.of_N c - 48.

Definition hexVal (c : N) : option Z :=
  if is_digit c then Some (digitVal c)
  else if ((97 <=? c) && (c <=? 102))%N then Some (Z.of_N c - 87)
  else if ((65 <=? c) && (c <=? 70))%N then Some (Z.of_N c - 55)
  else None.

(** Code units used by the parsers. *)
Definition LF : N := 10.
Definition TAB : N := 9.
Definition PIPE : N := 124.
Definition LPAREN : N := 40.
Definition RPAREN : N := 41.
Definition PLUS : N := 43.
Definition MINUS : N := 45.
Definition DOT : N := 46.

(* ===================================================================== *)
(** ** String built-ins *)
(* ===================================================================== *)

(** [s.split(sep)] for a one-character separator: never empty, the empty
    string splits into one empty field. *)
Fixpoint split (sep : N) (s : jsstring) : list jsstring :=
  match s with
  | [] => [[]]
  | c :: s' =>
      if (c =? sep)%N then [] :: split sep s'
      else match split sep s' with
           | [] => [[c]]
           | f :: fs => (c :: f) :: fs
           end
  end.

Fixpoint trimStart (s : jsstring) : jsstring :=
  match s with
  | c :: s' => if is_ws c then trimStart s' else s
  | [] => []
  end.

Definition trimEnd (s : jsstring) : jsstring :=
  reverse (trimStart (reverse s)).

(** [s.trim()] *)
Definition trim (s : jsstring) : jsstring := trimEnd (trimStart s).

(** Truthiness of a string: non-empty. *)
Definition truthy (s : jsstring) : bool :=
  match s with [] => false | _ => true end.

(** The longest prefix of characters satisfying [p], and the rest. *)
Fixpoint span (p : N -> bool) (s : jsstring) : jsstring * jsstring :=
  match s with
  | c :: s' =>
      if p c then let '(a, b) := span p s' in (c :: a, b) else ([], s)
  | [] => ([], [])
  end.

(** Value of a digit string in base 10, most significant digit first. *)
Definition decValue (ds : jsstring) : Z :=
  fold_left (fun acc c => 10 * acc + digitVal c) ds 0.

Definition hexValue (ds : jsstring) : Z :=
  fold_left (fun acc c => 16 * acc + default 0 (hexVal c)) ds 0.

Definition isSome {A} (o : option A) : bool :=
  match o with Some _ => true | None => false end.

(** [parseInt(s)] with no radix argument. *)
Definition parseInt (s : jsstring) : Number :=
  let s1 := trimStart s in
  let '(neg, s2) :=
    match s1 with
    | c :: r => if (c =? MINUS)%N then (true, r)
                else if (c =? PLUS)%N then (false, r) else (false, s1)
    | [] => (false, s1)
    end in
  let '(hex, s3) :=
    match s2 with
    | z :: x :: r =>
        if ((z =? 48) && ((x =? 120) || (x =? 88)))%N then (true, r)
        else (false, s2)
    | _ => (false, s2)
    end in
  let ds := fst (span (if hex then (fun c => isSome (hexVal c)) else is_digit) s3) in
  match ds with
  | [] => NaN
  | _ =>
      let v := if hex then hexValue ds else decValue ds in
      ofZ (if neg then - v else v)
  end.

(** 10^e as a rational. *)
Definition pow10 (e : Z) : Q :=
  if 0 <=? e then inject_Z (10 ^ e) else 1 # Z.to_pos (10 ^ (- e)).

(** The exponent part [e], [e+], [e-] followed by at least one digit;
    0 when there is none. *)
Definition exponentPart (s : jsstring) : Z :=
  match s with
  | e :: r =>
      if ((e =? 101) || (e =? 69))%N then
        let '(eneg, r') :=
          match r with
          | c :: r0 => if (c =? MINUS)%N then (true, r0)
                       else if (c =? PLUS)%N then (false, r0) else (false, r)
          | [] => (false, r)
          end in
        match fst (span is_digit r') with
        | [] => 0
        | ds => if eneg then - decValue ds else decValue ds
        end
      else 0
  | [] => 0
  end.

(** [parseFloat(s)]: the longest prefix that is a StrDecimalLiteral. *)
Definition parseFloat (s : jsstring) : Number :=
  let s1 := trimStart s in
  let '(neg, s2) :=
    match s1 with
    | c :: r => if (c =? MINUS)%N then (true, r)
                else if (c =? PLUS)%N then (false, r) else (false, s1)
    | [] => (false, s1)
    end in
  if decide (take 8 s2 = js "Infinity") then (if neg then NInf else PInf)
  else
    let '(ip, r1) := span is_digit s2 in
    let '(fp, r2) :=
      match r1 with
      | c :: r => if (c =? DOT)%N then span is_digit r else ([], r1)
      | [] => ([], r1)
      end in
    match ip ++ fp with
    | [] => NaN
    | ds =>
        let m := decValue ds in
        let e := exponentPart r2 - Z.of_nat (length fp) in
        Fin ((inject_Z (if neg then - m else m)) * pow10 e)
    end.

(** Does the whole of [s] match [\s*\(\d{4}\)]? *)
Fixpoint matchYear (s : jsstring) : bool :=
  match s with
  | [] => false
  | c :: s' =>
      (match s with
       | [l; d1; d2; d3; d4; r] =>
           (l =? LPAREN)%N && is_digit d1 && is_digit d2 && is_digit d3
           && is_digit d4 && (r =? RPAREN)%N
       | _ => false
       end)
      || (is_ws c && matchYear s')
  end.

(** [s.replace(/\s*\(\d{4}\)$/, '')]: the leftmost position from which the
    pattern matches up to the end of the string is where the string is cut;
    without a match the string is unchanged. *)
Fixpoint stripYear (s : jsstring) : jsstring :=
  if matchYear s then []
  else match s with
       | [] => []
       | c :: s' => c :: stripYear s'
       end.

(* ===================================================================== *)
(** ** Records of data.js *)
(* ===================================================================== *)

Record Movie : Type := mkMovie { id : Number; title : jsstring }.

Record Rating : Type :=
  mkRating { userId : Number; movieId : Number; rating : Number }.

(** The object returned by [loadData] and [loadSampleData]. *)
Record Dataset : Type := mkDataset {
  ds_movies : list Movie;
  ds_ratings : list Rating;
  ds_numUsers : Number;
  ds_numMovies : Number
}.

(* ===================================================================== *)
(** ** The record parser ([parseItemData], [parseRatingData])

    The two functions have the same text in data.js and in the
    multi-source variant. *)
(* ===================================================================== *)

(** [text.split('\n').filter(line => line.trim())] *)
Definition nonBlankLines (text : jsstring) : list jsstring :=
  filter (fun line => truthy (trim line) = true) (split LF text).

(** One iteration of the loop of [parseItemData]. *)
Definition parseItemLine (movieData : list Movie) (line : jsstring) : list Movie :=
  let parts := split PIPE line in
  if (2 <=? length parts)%nat then
    match parts with
    | p0 :: p1 :: _ =>
        let movieId := parseInt p0 in
        let title := trim p1 in
        let title := stripYear title in
        movieData ++ [mkMovie movieId title]
    | _ => movieData
    end
  else movieData.

Definition parseItemData (text : jsstring) : list Movie :=
  let lines := nonBlankLines text in
  fold_left parseItemLine lines [].

(** One iteration of the loop of [parseRatingData]. *)
Definition parseRatingLine (ratingData : list Rating) (line : jsstring) : list Rating :=
  let parts := split TAB line in
  if (3 <=? length parts)%nat then
    match parts with
    | p0 :: p1 :: p2 :: _ =>
        ratingData ++ [mkRating (parseInt p0) (parseInt p1) (parseFloat p2)]
    | _ => ratingData
    end
  else ratingData.

Definition parseRatingData (text : jsstring) : list Rating :=
  let lines := nonBlankLines text in
  fold_left parseRatingLine lines [].

(* ===================================================================== *)
(** ** Math built-ins *)
(* ===================================================================== *)

(** One step of [Math.max]: [highest] against the next argument. *)
Definition max2 (highest x : Number) : Number :=
  match highest, x with
  | NaN, _ | _, NaN => NaN
  | PInf, _ | _, PInf => PInf
  | NInf, _ => x
  | _, NInf => highest
  | Fin p, Fin q => if Qltb p q then x else highest
  end.

Definition min2 (lowest x : Number) : Number :=
  match lowest, x with
  | NaN, _ | _, NaN => NaN
  | NInf, _ | _, NInf => NInf
  | PInf, _ => x
  | _, PInf => lowest
  | Fin p, Fin q => if Qltb q p then x else lowest
  end.

(** [Math.max(...xs)]: minus infinity without arguments, NaN as soon as one
    argument is NaN. *)
Definition Math_max (xs : list Number) : Number := fold_left max2 xs NInf.

(** [Math.min(...xs)] *)
Definition Math_min (xs : list Number) : Number := fold_left min2 xs PInf.

(** [Math.floor(x)] *)
Definition Math_floor (x : Number) : Number :=
  match x with
  | Fin q => ofZ (Qfloor q)
  | _ => x
  end.

(** [x <= y] of JavaScript: false as soon as one side is NaN. *)
Definition js_le (x y : Number) : bool :=
  match x, y with
  | NaN, _ | _, NaN => false
  | NInf, _ | _, PInf => true
  | PInf, _ | _, NInf => false
  | Fin p, Fin q => Qle_bool p q
  end.

(** [x > y] of JavaScript. *)
Definition js_gt (x y : Number) : bool :=
  match x, y with
  | NaN, _ | _, NaN => false
  | NInf, _ | _, PInf => false
  | PInf, _ | _, NInf => true
  | Fin p, Fin q => Qltb q p
  end.

(** [x === y] on numbers: NaN equals nothing. *)
Definition js_eq (x y : Number) : bool :=
  match x, y with
  | PInf, PInf | NInf, NInf => true
  | Fin p, Fin q => Qeq_bool p q
  | _, _ => false
  end.

Definition js_add (x y : Number) : Number :=
  match x, y with
  | NaN, _ | _, NaN => NaN
  | PInf, NInf | NInf, PInf => NaN
  | PInf, _ | _, PInf => PInf
  | NInf, _ | _, NInf => NInf
  | Fin p, Fin q => Fin (p + q)
  end.

Definition js_sub (x y : Number) : Number :=
  match x, y with
  | NaN, _ | _, NaN => NaN
  | PInf, PInf | NInf, NInf => NaN
  | PInf, _ | _, NInf => PInf
  | NInf, _ | _, PInf => NInf
  | Fin p, Fin q => Fin (p - q)
  end.

(** A positive integer: what an embedding table can be sized with. *)
Definition isPositiveInteger (x : Number) : Prop :=
  exists n : Z, 0 < n /\ x = ofZ n.

(* ===================================================================== *)
(** ** Global variables of data.js, and the retrieval boundary *)
(* ===================================================================== *)

Record Globals : Type := mkGlobals {
  movies : list Movie;
  ratings : list Rating;
  numUsers : Number;
  numMovies : Number
}.

(** [let movies = []; let ratings = []; let numUsers = 0; let numMovies = 0;] *)
Definition initialGlobals : Globals := mkGlobals [] [] (ofZ 0) (ofZ 0).

(** What [fetch(url)] does: the promise rejects, or it resolves to a
    response with its [ok] flag whose [text()] gives the body or rejects
    ([None]). *)
Inductive FetchOutcome : Type :=
  | NetworkError
  | Response (ok : bool) (body : option jsstring).

Abbreviation Fetch := (string -> FetchOutcome).

Inductive Error : Type :=
  | FetchRejected
  | TextRejected
  | ErrorMsg (message : string).

(** Completion of a call that may throw. *)
Inductive Outcome (A : Type) : Type :=
  | Returned (a : A)
  | Thrown (e : Error).
Arguments Returned {A} a.
Arguments Thrown {A} e.

(** The assignments and the returned object shared by both loaders:
    [movies = parseItemData(moviesText); ratings = parseRatingData(ratingsText);
     numUsers = Math.max(...ratings.map(r => r.userId)); numMovies = movies.length;
     return {movies, ratings, numUsers, numMovies}]. *)
Definition storeParsed (moviesText ratingsText : jsstring) : Dataset * Globals :=
  let movies := parseItemData moviesText in
  let ratings := parseRatingData ratingsText in
  let numUsers := Math_max (userId <$> ratings) in
  let numMovies := ofZ (Z.of_nat (length movies)) in
  (mkDataset movies ratings numUsers numMovies,
   mkGlobals movies ratings numUsers numMovies).

(** *** data.js: one source per file, failures rethrown *)
Module DataJs.

Definition moviesUrl : string :=
  "https://raw.githubusercontent.com/dryjins/RecSys-LLMs/main/week3/ml-100k/u.item".
Definition ratingsUrl : string :=
  "https://raw.githubusercontent.com/dryjins/RecSys-LLMs/main/week3/ml-100k/u.data".

(** [loadData]: both files are fetched with [Promise.all]; a rejected
    fetch, a response that is not [ok] or a rejected [text()] ends in the
    [catch] block, which logs and rethrows. *)
Definition loadData (fetch : Fetch) (g : Globals) : Outcome Dataset * Globals :=
  match fetch moviesUrl, fetch ratingsUrl with
  | Response moviesOk moviesBody, Response ratingsOk ratingsBody =>
      if negb moviesOk || negb ratingsOk then
        (Thrown (ErrorMsg "Failed to load dataset files"), g)
      else
        match moviesBody, ratingsBody with
        | Some moviesText, Some ratingsText =>
            let '(d, g') := storeParsed moviesText ratingsText in
            (Returned d, g')
        | _, _ => (Thrown TextRejected, g)
        end
  | _, _ => (Thrown FetchRejected, g)
  end.

End DataJs.

(* ===================================================================== *)
(** ** Random draws *)
(* ===================================================================== *)

(** The values [Math.random()] returns, in call order. *)
Abbreviation Rng := (nat -> Q).

(** A computation that consumes draws: from the number of draws made so
    far to a result and the new count; [None] when a loop used up its
    iteration budget. *)
Definition Gen (A : Type) : Type := nat -> option (A * nat).

Definition retG {A} (a : A) : Gen A := fun pos => Some (a, pos).

Definition bindG {A B} (m : Gen A) (k : A -> Gen B) : Gen B :=
  fun pos =>
    match m pos with
    | Some (a, pos') => k a pos'
    | None => None
    end.

#[global] Instance Gen_ret : MRet Gen := @retG.
#[global] Instance Gen_bind : MBind Gen := fun A B k m => bindG m k.

(** [Math.random()] *)
Definition random (rng : Rng) : Gen Q := fun pos => Some (rng pos, S pos).

(** [Math.floor(Math.random() * n) + k] on a draw [r]. *)
Definition scaled (r : Q) (n k : Z) : Z := Qfloor (r * inject_Z n) + k.

(* ===================================================================== *)
(** ** The multi-source loader with the synthetic fallback *)
(* ===================================================================== *)

Module DataFallback.

Definition movieUrls : list string := [
  "https://raw.githubusercontent.com/dryjins/RecSys-LLMs/main/week3/ml-100k/u.item";
  "https://raw.githubusercontent.com/dryjins/RecSys-LLMs/refs/heads/main/week3/ml-100k/u.item";
  "https://raw.githubusercontent.com/dryjins/RecSys-LLMs/master/week3/ml-100k/u.item"
]%string.

Definition ratingUrls : list string := [
  "https://raw.githubusercontent.com/dryjins/RecSys-LLMs/main/week3/ml-100k/u.data";
  "https://raw.githubusercontent.com/dryjins/RecSys-LLMs/refs/heads/main/week3/ml-100k/u.data";
  "https://raw.githubusercontent.com/dryjins/RecSys-LLMs/master/week3/ml-100k/u.data"
]%string.

(** The sample catalogue of [loadSampleData]. *)
Definition sampleMovies : list Movie := [
  mkMovie (ofZ 1) (js "Toy Story");
  mkMovie (ofZ 2) (js "GoldenEye");
  mkMovie (ofZ 3) (js "Four Rooms");
  mkMovie (ofZ 4) (js "Get Shorty");
  mkMovie (ofZ 5) (js "Copycat");
  mkMovie (ofZ 6) (js "Shanghai Triad");
  mkMovie (ofZ 7) (js "Twelve Monkeys");
  mkMovie (ofZ 8) (js "Babe");
  mkMovie (ofZ 9) (js "Dead Man Walking");
  mkMovie (ofZ 10) (js "Richard III");
  mkMovie (ofZ 11) (js "Seven");
  mkMovie (ofZ 12) (js "Usual Suspects");
  mkMovie (ofZ 13) (js "Mighty Aphrodite");
  mkMovie (ofZ 14) (js "Postman, The");
  mkMovie (ofZ 15) (js "Mr. Holland's Opus");
  mkMovie (ofZ 16) (js "French Twist");
  mkMovie (ofZ 17) (js "From Dusk Till Dawn");
  mkMovie (ofZ 18) (js "White Balloon, The");
  mkMovie (ofZ 19) (js "Antonia's Line");
  mkMovie (ofZ 20) (js "Angels and Insects")
].

Section Sample.
Variable rng : Rng.
(** Iteration budget of one [do ... while] loop. *)
Variable fuel : nat.

(** [do { movieId = Math.floor(Math.random() * numMovies) + 1; }
     while (ratedMovies.has(movieId));] *)
Fixpoint pickMovie (n : nat) (numMovies : Z) (ratedMovies : gset Z) : Gen Z :=
  match n with
  | O => fun _ => None
  | S n' =>
      r ← random rng;
      let movieId := scaled r numMovies 1 in
      if decide (movieId ∈ ratedMovies)
      then pickMovie n' numMovies ratedMovies
      else mret movieId
  end.

(** [const rand = Math.random();
     if (rand < 0.6) rating = Math.floor(Math.random() * 2) + 4;
     else if (rand < 0.9) rating = 3;
     else rating = Math.floor(Math.random() * 2) + 1;] *)
Definition ratingFor (rand : Q) : Gen Z :=
  if Qltb rand (6 # 10) then (r ← random rng; mret (scaled r 2 4))
  else if Qltb rand (9 # 10) then mret 3
  else (r ← random rng; mret (scaled r 2 1)).

Definition drawRating : Gen Z :=
  rand ← random rng; ratingFor rand.

(** The inner [for (let i = 0; i < numRatings; i++)] loop, [todo]
    iterations from its end. *)
Fixpoint rateMovies (todo : nat) (userId numMovies : Z)
    (ratedMovies : gset Z) (ratings : list Rating) : Gen (list Rating) :=
  match todo with
  | O => mret ratings
  | S todo' =>
      movieId ← pickMovie fuel numMovies ratedMovies;
      rating ← drawRating;
      rateMovies todo' userId numMovies (ratedMovies ∪ {[movieId]})
        (ratings ++ [mkRating (ofZ userId) (ofZ movieId) (ofZ rating)])
  end.

(** The outer [for (let userId = 1; userId <= numUsers; userId++)] loop,
    [todo] users from its end. *)
Fixpoint rateUsers (todo : nat) (userId numMovies : Z)
    (ratings : list Rating) : Gen (list Rating) :=
  match todo with
  | O => mret ratings
  | S todo' =>
      r ← random rng;
      let numRatings := scaled r 10 5 in
      ratings' ← rateMovies (Z.to_nat numRatings) userId numMovies ∅ ratings;
      rateUsers todo' (userId + 1) numMovies ratings'
  end.

(** [loadSampleData()], on the draws made from its call on: [None] when a
    [do ... while] loop did not end within the budget. *)
Definition loadSampleData (g : Globals) : option (Dataset * Globals) :=
  let movies := sampleMovies in
  let numUsers := 50 in
  let numMovies := Z.of_nat (length movies) in
  match rateUsers (Z.to_nat numUsers) 1 numMovies [] 0%nat with
  | Some (ratings, _) =>
      Some (mkDataset movies ratings (ofZ numUsers) (ofZ numMovies),
            mkGlobals movies ratings (ofZ numUsers) (ofZ numMovies))
  | None => None
  end.

(** One of the two [for (const url of ...)] loops: the text of the first
    source whose response is [ok]; a rejected [fetch] or [text()] is
    caught and the next source is tried. *)
Fixpoint tryUrls (fetch : Fetch) (urls : list string) : option jsstring :=
  match urls with
  | [] => None
  | url :: rest =>
      match fetch url with
      | Response true (Some text) => Some text
      | _ => tryUrls fetch rest
      end
  end.

(** The body of the [try] block of [loadData]. *)
Definition loadDataTry (fetch : Fetch) (g : Globals)
    : option (Outcome Dataset * Globals) :=
  match tryUrls fetch movieUrls, tryUrls fetch ratingUrls with
  | Some moviesText, Some ratingsText =>
      let '(d, g') := storeParsed moviesText ratingsText in
      Some (Returned d, g')
  | _, _ =>
      match loadSampleData g with
      | Some (d, g') => Some (Returned d, g')
      | None => None
      end
  end.

(** [loadData]: whatever the [try] block throws is caught and answered
    with [loadSampleData()]. *)
Definition loadData (fetch : Fetch) (g : Globals)
    : option (Outcome Dataset * Globals) :=
  match loadDataTry fetch g with
  | Some (Thrown _, g') =>
      match loadSampleData g' with
      | Some (d, g'') => Some (Returned d, g'')
      | None => None
      end
  | r => r
  end.

End Sample.

End DataFallback.

(** A stream of draws that cycles through twenty equally spaced values. *)
Definition cyclicRng : Rng := fun k => (Z.of_nat k mod 20) # 20.

(* ===================================================================== *)
(** ** script.js: the session state *)
(* ===================================================================== *)

Definition LATENT_DIM : Z := 10.
Definition EPOCHS : nat := 8.
Definition BATCH_SIZE : Z := 128.

(** The object [createModel()] builds, as far as the session observes it:
    whether it was compiled and how many epochs [fit] has run on its
    weights. *)
Record ModelObj : Type := mkModel { compiled : bool; epochsDone : nat }.

(** Text written by [updateStatus]. *)
Inductive StatusMsg : Type :=
  | StNone
  | StCreating            (* 'Creating model architecture...' *)
  | StCompiled            (* 'Model compiled. Preparing training data...' *)
  | StStarting            (* 'Starting training...' *)
  | StEpoch (epoch : nat) (loss : Number)
                          (* `Training epoch ${epoch + 1}/${EPOCHS} - Loss: ...` *)
  | StCompleted           (* 'Model training completed! Ready for predictions.' *)
  | StTrainingFailed (e : Error).   (* 'Training failed: ' + error.message *)

(** What [displayPrediction] interpolates into its HTML template. *)
Record Display : Type := mkDisplay {
  shownUser : jsstring;
  shownTitle : jsstring;
  starsHTML : jsstring;
  (** [clampedRating.toFixed(1)]; [None] only for magnitudes from 10^21 on,
      where [toFixed] switches to the exponent notation of [toString] *)
  ratingText : option jsstring
}.

(** Content of the result element, written by [showResult] and
    [displayPrediction]. *)
Inductive ResultMsg : Type :=
  | ResNone
  | ResSelectBoth         (* 'Please select both a user and a movie.' *)
  | ResNotReady           (* 'Model is not ready yet. Please wait for training to complete.' *)
  | ResMaking             (* 'Making prediction...' *)
  | ResPredictionFailed (e : Error)   (* 'Prediction failed: ' + error.message *)
  | ResPrediction (d : Display).

(** The suspended call of [trainModel]: not called yet, waiting at
    [await model.fit(...)] with its three tensors, or returned. *)
Inductive TrainCall : Type :=
  | NotCalled
  | AwaitingFit (userTensor movieTensor ratingTensor : nat)
  | TrainReturned.

Record Session : Type := mkSession {
  globals : Globals;
  (** [let model;] of script.js: [None] is [undefined] *)
  model : option ModelObj;
  (** tensors the engine holds, and the id of the next one *)
  liveTensors : gset nat;
  nextTensor : nat;
  status : StatusMsg;
  progress : Number;
  result : ResultMsg;
  training : TrainCall
}.

Definition initialSession (g : Globals) : Session :=
  mkSession g None ∅ 0%nat StNone (ofZ 0) ResNone NotCalled.

Definition updateStatus (message : StatusMsg) (s : Session) : Session :=
  mkSession (globals s) (model s) (liveTensors s) (nextTensor s)
    message (progress s) (result s) (training s).

Definition showResult (message : ResultMsg) (s : Session) : Session :=
  mkSession (globals s) (model s) (liveTensors s) (nextTensor s)
    (status s) (progress s) message (training s).

Definition setModel (m : option ModelObj) (s : Session) : Session :=
  mkSession (globals s) m (liveTensors s) (nextTensor s)
    (status s) (progress s) (result s) (training s).

Definition setProgress (p : Number) (s : Session) : Session :=
  mkSession (globals s) (model s) (liveTensors s) (nextTensor s)
    (status s) p (result s) (training s).

Definition setTraining (t : TrainCall) (s : Session) : Session :=
  mkSession (globals s) (model s) (liveTensors s) (nextTensor s)
    (status s) (progress s) (result s) t.

(** [tf.tensor1d(...)]: a new tensor held by the engine. *)
Definition tensor1d (s : Session) : nat * Session :=
  (nextTensor s,
   mkSession (globals s) (model s) (liveTensors s ∪ {[nextTensor s]})
     (S (nextTensor s)) (status s) (progress s) (result s) (training s)).

(** [t.dispose()] *)
Definition dispose (t : nat) (s : Session) : Session :=
  mkSession (globals s) (model s) (liveTensors s ∖ {[t]}) (nextTensor s)
    (status s) (progress s) (result s) (training s).

(* ===================================================================== *)
(** ** script.js: displayPrediction *)
(* ===================================================================== *)

Definition STAR_FULL : N := 9733.    (* U+2605 *)
Definition STAR_EMPTY : N := 9734.   (* U+2606 *)

Fixpoint digitsOfUint (u : Decimal.uint) : jsstring :=
  match u with
  | Decimal.Nil => []
  | Decimal.D0 u => 48%N :: digitsOfUint u
  | Decimal.D1 u => 49%N :: digitsOfUint u
  | Decimal.D2 u => 50%N :: digitsOfUint u
  | Decimal.D3 u => 51%N :: digitsOfUint u
  | Decimal.D4 u => 52%N :: digitsOfUint u
  | Decimal.D5 u => 53%N :: digitsOfUint u
  | Decimal.D6 u => 54%N :: digitsOfUint u
  | Decimal.D7 u => 55%N :: digitsOfUint u
  | Decimal.D8 u => 56%N :: digitsOfUint u
  | Decimal.D9 u => 57%N :: digitsOfUint u
  end.

(** The decimal digits of a natural number, ["0"] for zero. *)
Definition decimalDigits (n : Z) : jsstring :=
  digitsOfUint (N.to_uint (Z.to_N n)).

(** The digits of [n] with a point before the last one, padded to two
    digits: 7 gives "0.7", 36 gives "3.6". *)
Definition fixedDigits (n : Z) : jsstring :=
  let m := decimalDigits n in
  let m := if (length m <=? 1)%nat then 48%N :: m else m in
  let k := length m in
  take (k - 1) m ++ [DOT] ++ drop (k - 1) m.

(** [x.toFixed(1)] *)
Definition toFixed1 (x : Number) : option jsstring :=
  match x with
  | NaN => Some (js "NaN")
  | PInf => Some (js "Infinity")
  | NInf => Some (js "-Infinity")
  | Fin q =>
      let neg := Qltb q 0 in
      let a := if neg then (- q)%Q else q in
      if Qle_bool (inject_Z (10 ^ 21)) a then None
      else
        (* the integer n with n / 10 closest to a, the larger one on a tie *)
        let n := Qfloor (a * 10 + (1 # 2)) in
        Some ((if neg then [MINUS] else []) ++ fixedDigits n)
  end.

(** [Math.max(1, Math.min(5, predictedRating))] *)
Definition clampRating (predictedRating : Number) : Number :=
  Math_max [ofZ 1; Math_min [ofZ 5; predictedRating]].

(** The body of the [for (let i = 1; i <= 5; i++)] loop, [todo] iterations
    from its end. *)
Fixpoint starLoop (todo : nat) (i : Z) (fullStars partialStar : Number)
    (starsHTML : jsstring) : jsstring :=
  match todo with
  | O => starsHTML
  | S todo' =>
      let starsHTML :=
        if js_le (ofZ i) fullStars then starsHTML ++ [STAR_FULL]
        else if js_eq (ofZ i) (js_add fullStars (ofZ 1))
                && js_gt partialStar (ofZ 0)
        then starsHTML ++ [STAR_EMPTY]
        else starsHTML ++ [STAR_EMPTY] in
      starLoop todo' (i + 1) fullStars partialStar starsHTML
  end.

Definition displayPrediction (userId movieTitle : jsstring)
    (predictedRating : Number) : Display :=
  let clampedRating := clampRating predictedRating in
  let fullStars := Math_floor clampedRating in
  let partialStar := js_sub clampedRating fullStars in
  let starsHTML := starLoop 5 1 fullStars partialStar [] in
  mkDisplay userId movieTitle starsHTML (toFixed1 clampedRating).

(* ===================================================================== *)
(** ** script.js: trainModel and predictRating

    [trainModel] runs in two segments separated by [await model.fit(...)];
    between them the event loop delivers the [onEpochEnd] callbacks and the
    clicks on the predict button. *)
(* ===================================================================== *)

(** [createModel()] as the engine answers it: the new, uncompiled model or
    an exception. *)
Definition createModel (failure : option Error) : Outcome ModelObj :=
  match failure with
  | None => Returned (mkModel false 0)
  | Some e => Thrown e
  end.

(** [model.compile({...})] *)
Definition compile (m : ModelObj) : ModelObj := mkModel true (epochsDone m).

(** [trainModel], up to and including the call of [model.fit];
    [model.compile] and [tf.tensor1d] are taken to succeed. *)
Definition trainModel_start (createFailure : option Error) (s : Session) : Session :=
  let s := updateStatus StCreating s in
  match createModel createFailure with
  | Thrown error =>
      (* catch (error) *)
      setTraining TrainReturned (updateStatus (StTrainingFailed error) s)
  | Returned m =>
      let s := setModel (Some m) s in
      let s := setModel (compile <$> model s) s in
      let s := updateStatus StCompiled s in
      let '(userTensor, s) := tensor1d s in
      let '(movieTensor, s) := tensor1d s in
      let '(ratingTensor, s) := tensor1d s in
      let s := updateStatus StStarting s in
      setTraining (AwaitingFit userTensor movieTensor ratingTensor) s
  end.

(** One epoch of [model.fit]: the engine updates the weights of the model
    object in place. *)
Definition fitEpoch (s : Session) : Session :=
  setModel ((fun m => mkModel (compiled m) (S (epochsDone m))) <$> model s) s.

(** The [onEpochEnd] callback. *)
Definition onEpochEnd (epoch : nat) (loss : Number) (s : Session) : Session :=
  let progress :=
    Fin ((inject_Z (Z.of_nat epoch + 1) / inject_Z (Z.of_nat EPOCHS)) * 100) in
  let s := setProgress progress s in
  updateStatus (StEpoch epoch loss) s.

(** [trainModel] after [await model.fit(...)] when the promise resolves. *)
Definition trainModel_resolved (s : Session) : Session :=
  match training s with
  | AwaitingFit userTensor movieTensor ratingTensor =>
      let s := dispose userTensor s in
      let s := dispose movieTensor s in
      let s := dispose ratingTensor s in
      let s := updateStatus StCompleted s in
      let s := setProgress (ofZ 100) s in
      setTraining TrainReturned s
  | _ => s
  end.

(** [trainModel] after [await model.fit(...)] when the promise rejects:
    the [catch] block. *)
Definition trainModel_rejected (error : Error) (s : Session) : Session :=
  match training s with
  | AwaitingFit _ _ _ =>
      setTraining TrainReturned (updateStatus (StTrainingFailed error) s)
  | _ => s
  end.

(** What [model.predict(...)] and [prediction.data()] do for one request. *)
Inductive PredictAnswer : Type :=
  | PredictThrows (e : Error)
  | DataRejects (e : Error)
  | Score (predictedRating : Number).

(** [movies.find(m => m.id === parseInt(movieId))] *)
Definition findMovie (movies : list Movie) (movieId : jsstring) : option Movie :=
  List.find (fun m => js_eq (id m) (parseInt movieId)) movies.

(** [predictRating()], with the values of the two dropdowns.  Its own
    [await prediction.data()] touches nothing but its tensors and the
    result element, so the call is taken as one step. *)
Definition predictRating (userId movieId : jsstring) (answer : PredictAnswer)
    (s : Session) : Session :=
  if negb (truthy userId) || negb (truthy movieId) then
    showResult ResSelectBoth s
  else
    match model s with
    | None => showResult ResNotReady s
    | Some _ =>
        let s := showResult ResMaking s in
        let '(userTensor, s) := tensor1d s in
        let '(movieTensor, s) := tensor1d s in
        match answer with
        | PredictThrows error => showResult (ResPredictionFailed error) s
        | DataRejects error =>
            let '(_, s) := tensor1d s in
            showResult (ResPredictionFailed error) s
        | Score predictedRating =>
            let '(prediction, s) := tensor1d s in
            let s := dispose userTensor s in
            let s := dispose movieTensor s in
            let s := dispose prediction s in
            match findMovie (movies (globals s)) movieId with
            | None =>
                showResult
                  (ResPredictionFailed (ErrorMsg "Cannot read properties of undefined"))
                  s
            | Some m =>
                showResult
                  (ResPrediction (displayPrediction userId (title m) predictedRating))
                  s
            end
        end
    end.

(** What the event loop delivers to the page once [trainModel] has been
    called. *)
Inductive Event : Type :=
  | EpochEnd (epoch : nat) (loss : Number)
  | FitResolved
  | FitRejected (e : Error)
  | PredictClick (userId movieId : jsstring) (answer : PredictAnswer).

Definition step (s : Session) (ev : Event) : Session :=
  match ev with
  | EpochEnd epoch loss =>
      match training s with
      | AwaitingFit _ _ _ => onEpochEnd epoch loss (fitEpoch s)
      | _ => s
      end
  | FitResolved => trainModel_resolved s
  | FitRejected e => trainModel_rejected e s
  | PredictClick userId movieId answer => predictRating userId movieId answer s
  end.

Definition run (s : Session) (evs : list Event) : Session := fold_left step evs s.

(** [trainModel] is suspended at [await model.fit(...)]: training has
    started and has not completed. *)
Definition fitting (s : Session) : Prop :=
  exists userTensor movieTensor ratingTensor,
    training s = AwaitingFit userTensor movieTensor ratingTensor.

(** The events of a training run that is still going: epochs only. *)
Definition epochEvents (epochs : list (nat * Number)) : list Event :=
  (fun '(epoch, loss) => EpochEnd epoch loss) <$> epochs.

(* ===================================================================== *)
(** ** script.js: the dropdowns and the page *)
(* ===================================================================== *)

Definition isInteger (q : Q) : bool := Qeq_bool (inject_Z (Qfloor q)) q.

(** [String(x)] for the numbers an id or a loop counter can be: NaN, the
    infinities and the integers; [None] for the others (fractions, and
    magnitudes from 10^21 on, which are printed in exponent notation). *)
Definition numberToString (x : Number) : option jsstring :=
  match x with
  | NaN => Some (js "NaN")
  | PInf => Some (js "Infinity")
  | NInf => Some (js "-Infinity")
  | Fin q =>
      let n := Qfloor q in
      if isInteger q && (Z.abs n <? 10 ^ 21) then
        Some ((if n <? 0 then [MINUS] else []) ++ decimalDigits (Z.abs n))
      else None
  end.

(** An [<option>] element: its value and its text, each [None] when the
    number in it is outside what [numberToString] covers. *)
Record SelectOption : Type :=
  mkOption { optValue : option jsstring; optText : option jsstring }.

(** ['<option value="">Select a user...</option>'] and its movie twin. *)
Definition userPlaceholder : SelectOption :=
  mkOption (Some []) (Some (js "Select a user...")).
Definition moviePlaceholder : SelectOption :=
  mkOption (Some []) (Some (js "Select a movie...")).

(** [option.value = i; option.textContent = `User ${i}`] *)
Definition userOption (i : Z) : SelectOption :=
  mkOption (numberToString (ofZ i))
           ((fun digits => js "User " ++ digits) <$> numberToString (ofZ i)).

(** [option.value = movie.id;
     option.textContent = `${movie.id}. ${movie.title}`] *)
Definition movieOption (movie : Movie) : SelectOption :=
  mkOption (numberToString (id movie))
           ((fun digits => digits ++ js ". " ++ title movie)
              <$> numberToString (id movie)).

(** The loop [for (let i = 1; i <= numUsers; i++)] of
    [populateUserDropdown], from counter [i] on; [None] when it has not
    ended within [fuel] iterations. *)
Fixpoint userLoop (fuel : nat) (i : Z) (numUsers : Number)
    (options : list SelectOption) : option (list SelectOption) :=
  if js_le (ofZ i) numUsers then
    match fuel with
    | O => None
    | S fuel' => userLoop fuel' (i + 1) numUsers (options ++ [userOption i])
    end
  else Some options.

(** [populateUserDropdown()]: the options of the user dropdown. *)
Definition populateUserDropdown (fuel : nat) (numUsers : Number)
    : option (list SelectOption) :=
  userLoop fuel 1 numUsers [userPlaceholder].

(** [populateMovieDropdown()]: the options of the movie dropdown. *)
Definition populateMovieDropdown (movies : list Movie) : list SelectOption :=
  fold_left (fun options movie => options ++ [movieOption movie]) movies
    [moviePlaceholder].

(** What the status element shows once [window.onload] has run up to its
    last suspension point. *)
Inductive PageStatus : Type :=
  | StUntouched
  | StLoadError (e : Error)          (* 'Error: ' + error.message *)
  | StFromTraining (s : StatusMsg).  (* last written by [trainModel] *)

Record Page : Type := mkPage {
  session : Session;
  userOptions : list SelectOption;
  movieOptions : list SelectOption;
  (** [document.getElementById('predict-btn').disabled] *)
  predictDisabled : bool;
  statusLine : PageStatus
}.

Definition setGlobals (g : Globals) (s : Session) : Session :=
  mkSession g (model s) (liveTensors s) (nextTensor s)
    (status s) (progress s) (result s) (training s).

(** [window.onload], given what [await loadData()] gave and left in the
    global variables.  A loader that throws sends control to the [catch]
    block; otherwise the dropdowns are filled, the button is enabled and
    [trainModel()] runs up to its [await].  The two status lines written
    in between ('Data loaded! ...', 'Starting model training...') are
    overwritten by [trainModel] before the page can show them.  [None]
    when the user loop has not ended within [fuel] iterations. *)
Definition onload (fuel : nat) (loaded : Outcome Dataset * Globals)
    (createFailure : option Error) (p : Page) : option Page :=
  match loaded with
  | (Thrown error, g) =>
      Some (mkPage (setGlobals g (session p)) (userOptions p) (movieOptions p)
                   (predictDisabled p) (StLoadError error))
  | (Returned _, g) =>
      match populateUserDropdown fuel (numUsers g) with
      | None => None
      | Some users =>
          let s := trainModel_start createFailure (setGlobals g (session p)) in
          Some (mkPage s users (populateMovieDropdown (movies g)) false
                       (StFromTraining (status s)))
      end
  end.

(** A page before [window.onload]: nothing loaded, empty dropdowns, the
    predict button disabled. *)
Definition blankPage (g : Globals) : Page :=
  mkPage (initialSession g) [] [] true StUntouched.

(* ===================================================================== *)
(** ** Vocabulary of the properties *)
(* ===================================================================== *)

(** A loaded page with one movie and one rating. *)
Definition tinyGlobals : Globals :=
  mkGlobals [mkMovie (ofZ 1) (js "Toy Story")]
            [mkRating (ofZ 1) (ofZ 1) (ofZ 4)] (ofZ 1) (ofZ 1).

(** A number within the rating scale. *)
Definition inRatingRange (x : Number) : Prop :=
  exists c : Q, x = Fin c /\ (1 <= c <= 5)%Q.

(** The code unit of a decimal digit. *)
Definition digitChar (d : Z) : N := Z.to_N (48 + d).

(** [full] full stars followed by empty stars up to five. *)
Definition starRow (full : nat) : jsstring :=
  replicate full STAR_FULL ++ replicate (5 - full) STAR_EMPTY.

(** [m] is the maximum of [xs]: one of them, and none is above it. *)
Definition isMaximumOf (m : Number) (xs : list Number) : Prop :=
  m ∈ xs /\ forall x, x ∈ xs -> js_le x m = true.

(** [inputDim] of the user embedding layer of [createModel]:
    [numUsers + 1]. *)
Definition userInputDim (d : Dataset) : Number := js_add (ds_numUsers d) (ofZ 1).

(** The global variables holding a dataset. *)
Definition globalsOf (d : Dataset) : Globals :=
  mkGlobals (ds_movies d) (ds_ratings d) (ds_numUsers d) (ds_numMovies d).

(** A source that serves both files. *)
Definition serving (moviesText ratingsText : jsstring) : Fetch :=
  fun url =>
    if decide (url = DataJs.moviesUrl) then Response true (Some moviesText)
    else if decide (url = DataJs.ratingsUrl) then Response true (Some ratingsText)
    else NetworkError.

(** No source answers. *)
Definition offline : Fetch := fun _ => NetworkError.


(** A blank line: nothing but white space. *)
Definition blank (line : jsstring) : Prop := Forall (fun c => is_ws c = true) line.

(** The number of fields of a line, and its [i]-th field. *)
Definition fieldCount (sep : N) (line : jsstring) : nat := length (split sep line).
Definition field (sep : N) (i : nat) (line : jsstring) : jsstring :=
  nth i (split sep line) [].

(** The record a catalogue line stands for: the first field as an integer,
    the second one trimmed and without its year. *)
Definition movieOfLine (line : jsstring) : Movie :=
  mkMovie (parseInt (field PIPE 0 line)) (stripYear (trim (field PIPE 1 line))).

(** The record a rating line stands for. *)
Definition ratingOfLine (line : jsstring) : Rating :=
  mkRating (parseInt (field TAB 0 line)) (parseInt (field TAB 1 line))
           (parseFloat (field TAB 2 line)).

(** A year in parentheses: "(YYYY)". *)
Definition isYear (y : jsstring) : Prop :=
  exists d1 d2 d3 d4,
    y = [LPAREN; d1; d2; d3; d4; RPAREN]
    /\ is_digit d1 = true /\ is_digit d2 = true
    /\ is_digit d3 = true /\ is_digit d4 = true.

(** The string does not end with white space. *)
Definition endsNonBlank (s : jsstring) : Prop :=
  match last s with
  | Some c => is_ws c = false
  | None => True
  end.

(** Sample texts: a catalogue, ratings by users 3, 1 and 7, and a ratings
    file without a single tab. *)
Definition sampleCatalogue : jsstring :=
  js "1|Toy Story (1995)|01-Jan-1995" ++ [LF]
  ++ js "2|GoldenEye (1995)|01-Jan-1995" ++ [LF] ++ [LF]
  ++ js "junk" ++ [LF].


Definition tablessRatings : jsstring :=
  js "196 242 3 881250949" ++ [LF] ++ js "186 302 3 891717742" ++ [LF].

#[global] Instance Q_eq_dec : EqDecision Q.
Proof. solve_decision. Defined.

#[global] Instance Number_eq_dec : EqDecision Number.
Proof. solve_decision. Defined.

(** Every draw is in [0, 1), as [Math.random()] promises. *)
Definition unitRange (rng : Rng) : Prop := forall k : nat, (0 <= rng k < 1)%Q.

(** Every one of the twenty movie ids keeps being drawn: from any point
    of the stream on, some later draw scales to it. *)
Definition fairMovies (rng : Rng) : Prop :=
  forall (pos : nat) (m : Z),
    1 <= m <= 20 -> exists k : nat, (pos <= k)%nat /\ scaled (rng k) 20 1 = m.

(** The ratings of user [u]. *)
Definition ratingsOf (u : Z) (rs : list Rating) : list Rating :=
  filter (fun r => userId r = ofZ u) rs.

(** A synthetic rating: user [u], a movie id from 1 to 20 outside
    [rated], a rating from 1 to 5. *)
Definition syntheticRating (u : Z) (rated : gset Z) (r : Rating) : Prop :=
  userId r = ofZ u
  /\ (exists m v, movieId r = ofZ m /\ 1 <= m <= 20 /\ (m ∉ rated)
                  /\ rating r = ofZ v /\ 1 <= v <= 5).

(** A synthetic rating of one of the users [u], ..., [u + n - 1]. *)
Definition ratingAmong (u : Z) (n : nat) (r : Rating) : Prop :=
  exists w, u <= w < u + Z.of_nat n /\ syntheticRating w ∅ r.



(** A dataset with its global variables, as a completed call. *)
Definition returned (r : Dataset * Globals) : Outcome Dataset * Globals :=
  (Returned r.1, r.2).

(** A source fails: the fetch is rejected, the response is not [ok], or
    its text cannot be read. *)
Definition sourceFails (fetch : Fetch) (url : string) : Prop :=
  forall text, fetch url <> Response true (Some text).

(** Every tensor the engine holds was handed out before: its id is below
    the next id. *)
Definition tensorsFresh (s : Session) : Prop :=
  forall t, t ∈ liveTensors s -> (t < nextTensor s)%nat.

(** [m] is the first movie of [movies] whose id is [n]. *)
Definition firstWithId (n : Number) (movies : list Movie) (m : Movie) : Prop :=
  exists before after,
    movies = before ++ m :: after
    /\ js_eq (id m) n = true
    /\ Forall (fun m' => js_eq (id m') n = false) before.

(** The code unit of a carriage return. *)
Definition CR : N := 13.

(** Clicks on the predict button that the engine answers with a score. *)
Definition scoreClicks (clicks : list (jsstring * jsstring * Number)) : list Event :=
  (fun '(userId, movieId, score) => PredictClick userId movieId (Score score))
    <$> clicks.

(** A string without white space at either end. *)
Definition tight (s : jsstring) : Prop :=
  match s with
  | [] => True
  | c :: _ => is_ws c = false
  end /\ endsNonBlank s.

(** The text with every line feed preceded by a carriage return: the same
    lines with Windows line ends. *)
Fixpoint crlf (text : jsstring) : jsstring :=
  match text with
  | [] => []
  | c :: rest => if (c =? LF)%N then CR :: LF :: crlf rest else c :: crlf rest
  end.

(** [c] appended to the last string of a list. *)
Fixpoint snocLast (c : N) (fs : list jsstring) : list jsstring :=
  match fs with
  | [] => []
  | f :: fs' =>
      match fs' with
      | [] => [f ++ [c]]
      | _ => f :: snocLast c fs'
      end
  end.

(** A carriage return appended to every line but the last. *)
Fixpoint addCR (lines : list jsstring) : list jsstring :=
  match lines with
  | [] => []
  | l :: lines' =>
      match lines' with
      | [] => [l]
      | _ => (l ++ [CR]) :: addCR lines'
      end
  end.

(** One step of [decValue]. *)
Definition decStep (acc : Z) (c : N) : Z := 10 * acc + digitVal c.

(** A [numUsers] the counter of the user loop can reach: not +Infinity,
    and below 2^53, where adding 1 is exact. *)
Definition safeCount (x : Number) : Prop :=
  match x with
  | PInf => False
  | Fin q => Qfloor q < 2 ^ 53
  | _ => True
  end.

(* ===================================================================== *)
(** * Properties *)
(* ===================================================================== *)

(* ===================================================================== *)
(** ** Training, prediction and the model variable *)
(* ===================================================================== *)

Section Training.

Lemma trainModel_start_fitting g :
  let s := trainModel_start None (initialSession g) in
  model s = Some (mkModel true 0)
  /\ training s = AwaitingFit 0 1 2
  /\ liveTensors s = {[0%nat; 1%nat; 2%nat]}
  /\ globals s = g.
Proof.
  cbn. repeat split; reflexivity.
Qed.

(** Epochs keep [trainModel] suspended, keep the model variable set and
    leave the tensors and the data alone. *)
Lemma epochs_preserve epochs : forall s t1 t2 t3,
  training s = AwaitingFit t1 t2 t3 ->
  let s' := run s (epochEvents epochs) in
  training s' = AwaitingFit t1 t2 t3
  /\ liveTensors s' = liveTensors s
  /\ globals s' = globals s
  /\ (is_Some (model s) -> is_Some (model s')).
Proof.
  induction epochs as [|[epoch loss] epochs IH]; intros s t1 t2 t3 Ht; cbn.
  - tauto.
  - unfold run in IH. rewrite Ht.
    destruct (IH (onEpochEnd epoch loss (fitEpoch s)) t1 t2 t3 Ht)
      as (H1 & H2 & H3 & H4).
    repeat split; [exact H1 | exact H2 | exact H3 |].
    intros Hm. apply H4. cbn. destruct (model s); [eexists; reflexivity|].
    destruct Hm as [? Hm]; discriminate Hm.
Qed.

(** With the model variable set and both dropdowns chosen,
    [predictRating] never answers 'Model is not ready yet'. *)
Lemma predictRating_with_model s c1 userId c2 movieId answer :
  is_Some (model s) ->
  result (predictRating (c1 :: userId) (c2 :: movieId) answer s) <> ResNotReady.
Proof.
  intros [m Hm]. unfold predictRating. cbn [truthy negb orb]. rewrite Hm.
  destruct answer; cbn; try discriminate.
  destruct (findMovie _ _); cbn; discriminate.
Qed.

Lemma predictRating_without_model s c1 userId c2 movieId answer :
  model s = None ->
  predictRating (c1 :: userId) (c2 :: movieId) answer s = showResult ResNotReady s.
Proof. intros Hm. unfold predictRating. cbn. rewrite Hm. reflexivity. Qed.

Lemma run_app s evs1 evs2 : run s (evs1 ++ evs2) = run (run s evs1) evs2.
Proof. unfold run. apply fold_left_app. Qed.

(** C1 (the code departs from the claim).  While [trainModel] is
    suspended at [await model.fit(...)], after any number of epochs, the
    model variable is already set: a prediction request with both
    dropdowns chosen is never answered with 'Model is not ready yet';
    on a one-movie page it displays a score computed by the model under
    training. *)
Theorem predict_while_fitting_uses_model :
  forall (g : Globals) (epochs : list (nat * Number))
         (c1 : N) (userId : jsstring) (c2 : N) (movieId : jsstring)
         (answer : PredictAnswer),
    fitting (run (trainModel_start None (initialSession g)) (epochEvents epochs))
    /\ result (predictRating (c1 :: userId) (c2 :: movieId) answer
                 (run (trainModel_start None (initialSession g))
                      (epochEvents epochs)))
       <> ResNotReady
    /\ result (predictRating (js "1") (js "1") (Score (Fin (32 # 10)))
                 (run (trainModel_start None (initialSession tinyGlobals))
                      [EpochEnd 0 (Fin (9 # 1))]))
       = ResPrediction (mkDisplay (js "1") (js "Toy Story")
                          [STAR_FULL; STAR_FULL; STAR_FULL; STAR_EMPTY; STAR_EMPTY]
                          (Some (js "3.2"))).
Proof.
  intros g epochs c1 userId c2 movieId answer.
  destruct (trainModel_start_fitting g) as (Hm & Ht & _ & _).
  destruct (epochs_preserve epochs _ _ _ _ Ht) as (Ht' & _ & _ & Hm').
  split; [|split].
  - do 3 eexists. exact Ht'.
  - apply predictRating_with_model. apply Hm'. rewrite Hm. eexists; reflexivity.
  - vm_compute. reflexivity.
Qed.

(** C2 (the code departs from the claim).  When [model.fit] rejects, after
    any number of epochs, the [catch] block of [trainModel] reports the
    failure and returns, but the model variable keeps the partially
    trained model: a later prediction request is never answered with
    'Model is not ready yet', and on a one-movie page it displays a score. *)
Theorem failed_training_leaves_model_set :
  forall (g : Globals) (epochs : list (nat * Number)) (e : Error)
         (c1 : N) (userId : jsstring) (c2 : N) (movieId : jsstring)
         (answer : PredictAnswer),
    status (run (trainModel_start None (initialSession g))
                (epochEvents epochs ++ [FitRejected e])) = StTrainingFailed e
    /\ training (run (trainModel_start None (initialSession g))
                     (epochEvents epochs ++ [FitRejected e])) = TrainReturned
    /\ is_Some (model (run (trainModel_start None (initialSession g))
                           (epochEvents epochs ++ [FitRejected e])))
    /\ result (predictRating (c1 :: userId) (c2 :: movieId) answer
                 (run (trainModel_start None (initialSession g))
                      (epochEvents epochs ++ [FitRejected e])))
       <> ResNotReady
    /\ model (run (trainModel_start None (initialSession tinyGlobals))
                  [EpochEnd 0 (Fin (9 # 1)); FitRejected (ErrorMsg "out of memory")])
       = Some (mkModel true 1)
    /\ result (predictRating (js "1") (js "1") (Score (Fin (32 # 10)))
                 (run (trainModel_start None (initialSession tinyGlobals))
                      [EpochEnd 0 (Fin (9 # 1)); FitRejected (ErrorMsg "out of memory")]))
       = ResPrediction (mkDisplay (js "1") (js "Toy Story")
                          [STAR_FULL; STAR_FULL; STAR_FULL; STAR_EMPTY; STAR_EMPTY]
                          (Some (js "3.2"))).
Proof.
  intros g epochs e c1 userId c2 movieId answer.
  destruct (trainModel_start_fitting g) as (Hm & Ht & _ & _).
  destruct (epochs_preserve epochs _ _ _ _ Ht) as (Ht' & _ & _ & Hm').
  assert (Hs : is_Some (model (run (trainModel_start None (initialSession g))
                                   (epochEvents epochs)))).
  { apply Hm'. rewrite Hm. eexists; reflexivity. }
  rewrite run_app.
  set (s := run (trainModel_start None (initialSession g)) (epochEvents epochs)) in *.
  assert (Hr : run s [FitRejected e]
               = setTraining TrainReturned (updateStatus (StTrainingFailed e) s)).
  { cbn. unfold trainModel_rejected. rewrite Ht'. reflexivity. }
  rewrite Hr.
  repeat split; try exact Hs.
  - apply predictRating_with_model. exact Hs.
Qed.

(** The other half of the release discipline: when [model.fit] resolves,
    the three training tensors are disposed of. *)
Lemma completed_training_releases_tensors g epochs :
  liveTensors (run (trainModel_start None (initialSession g))
                   (epochEvents epochs ++ [FitResolved])) = ∅.
Proof.
  destruct (trainModel_start_fitting g) as (_ & Ht & Hl & _).
  destruct (epochs_preserve epochs _ _ _ _ Ht) as (Ht' & Hl' & _ & _).
  rewrite run_app.
  set (s := run (trainModel_start None (initialSession g)) (epochEvents epochs)) in *.
  change (run s [FitResolved]) with (trainModel_resolved s).
  unfold trainModel_resolved. rewrite Ht'. cbn.
  rewrite Hl', Hl. apply leibniz_equiv. set_solver.
Qed.

(** C3 (the code departs from the claim).  When [model.fit] rejects, after
    any number of epochs, [trainModel] returns through its [catch] block
    and the user, movie and rating tensors (0, 1 and 2) are still held by
    the engine: none of them has been disposed of. *)
Theorem failed_training_leaks_tensors :
  forall (g : Globals) (epochs : list (nat * Number)) (e : Error),
    training (run (trainModel_start None (initialSession g))
                  (epochEvents epochs ++ [FitRejected e])) = TrainReturned
    /\ liveTensors (run (trainModel_start None (initialSession g))
                        (epochEvents epochs ++ [FitRejected e]))
       = {[0%nat; 1%nat; 2%nat]}
    /\ liveTensors (run (trainModel_start None (initialSession g))
                        (epochEvents epochs ++ [FitRejected e])) <> ∅.
Proof.
  intros g epochs e.
  destruct (trainModel_start_fitting g) as (_ & Ht & Hl & _).
  destruct (epochs_preserve epochs _ _ _ _ Ht) as (Ht' & Hl' & _ & _).
  rewrite run_app.
  set (s := run (trainModel_start None (initialSession g)) (epochEvents epochs)) in *.
  change (run s [FitRejected e]) with (trainModel_rejected e s).
  unfold trainModel_rejected. rewrite Ht'. cbn.
  rewrite Hl'. rewrite Hl. repeat split. clear. set_solver.
Qed.

End Training.

(* ===================================================================== *)
(** ** Displaying a prediction *)
(* ===================================================================== *)

Section Display.

Lemma Qltb_true x y : Qltb x y = true <-> (x < y)%Q.
Proof.
  unfold Qltb. rewrite negb_true_iff. split.
  - intros H. apply Qnot_le_lt. intros Hle. apply Qle_bool_iff in Hle. congruence.
  - intros H. destruct (Qle_bool y x) eqn:E; [|reflexivity].
    apply Qle_bool_iff in E. lra.
Qed.

Lemma Qltb_false x y : Qltb x y = false <-> (y <= x)%Q.
Proof. unfold Qltb. rewrite negb_false_iff. apply Qle_bool_iff. Qed.

Lemma Qle_bool_false x y : Qle_bool x y = false <-> (y < x)%Q.
Proof.
  rewrite <- Qltb_true. unfold Qltb. rewrite negb_true_iff. reflexivity.
Qed.

Lemma Qle_bool_inject a b : Qle_bool (inject_Z a) (inject_Z b) = (a <=? b).
Proof. unfold Qle_bool, inject_Z. cbn. rewrite !Z.mul_1_r. reflexivity. Qed.

(** Integer constants as rational literals, for [lra]. *)
Ltac qconst :=
  change (inject_Z 1) with 1%Q in *; change (inject_Z 5) with 5%Q in *;
  change (inject_Z 10) with 10%Q in *; change (inject_Z (10 ^ 21)) with
    (1000000000000000000000 # 1)%Q in *.

(** The clamp on a finite score. *)
Lemma clampRating_Fin q :
  exists c : Q,
    clampRating (Fin q) = Fin c /\ (1 <= c <= 5)%Q
    /\ ((q <= 1)%Q -> c = inject_Z 1)
    /\ ((5 <= q)%Q -> c = inject_Z 5)
    /\ ((1 < q < 5)%Q -> c = q).
Proof.
  unfold clampRating, Math_max, Math_min. cbn [fold_left max2 min2 ofZ].
  destruct (Qltb q (inject_Z 5)) eqn:E5.
  - apply Qltb_true in E5. destruct (Qltb (inject_Z 1) q) eqn:E1.
    + apply Qltb_true in E1. exists q.
      repeat split; intros; try reflexivity; qconst; try lra; exfalso; lra.
    + apply Qltb_false in E1. exists (inject_Z 1).
      repeat split; intros; try reflexivity; qconst; try lra; exfalso; lra.
  - apply Qltb_false in E5. unfold ofZ.
    replace (Qltb (inject_Z 1) (inject_Z 5)) with true by reflexivity.
    exists (inject_Z 5).
    repeat split; intros; try reflexivity; qconst; try lra; exfalso; lra.
Qed.

(** Whatever the partial star, the loop writes a full star for each
    index up to [fullStars] and an empty one for the others. *)
Lemma starLoop_spec todo : forall i f partialStar acc,
  starLoop todo i (ofZ f) partialStar acc
  = acc ++ ((fun j => if j <=? f then STAR_FULL else STAR_EMPTY)
              <$> seqZ i (Z.of_nat todo)).
Proof.
  induction todo as [|todo IH]; intros i f partialStar acc.
  - cbn. rewrite app_nil_r. reflexivity.
  - cbn [starLoop]. rewrite IH.
    rewrite (seqZ_cons i (Z.of_nat (S todo))) by lia. cbn [fmap list_fmap].
    replace (Z.pred (Z.of_nat (S todo))) with (Z.of_nat todo) by lia.
    replace (Z.succ i) with (i + 1) by lia.
    change (js_le (ofZ i) (ofZ f)) with (Qle_bool (inject_Z i) (inject_Z f)).
    rewrite Qle_bool_inject.
    destruct (i <=? f).
    + rewrite <- app_assoc. reflexivity.
    + destruct (_ && _); rewrite <- app_assoc; reflexivity.
Qed.

Lemma fixedDigits_two n :
  10 <= n <= 50 ->
  fixedDigits n = [digitChar (n / 10); DOT; digitChar (n mod 10)].
Proof.
  intros Hn. replace n with (10 + Z.of_nat (Z.to_nat (n - 10))) by lia.
  assert (Hk : (Z.to_nat (n - 10) <= 40)%nat) by lia.
  generalize dependent (Z.to_nat (n - 10)). clear Hn. intros k Hk.
  do 41 (destruct k as [|k]; [vm_compute; reflexivity|]). lia.
Qed.

(** C9, on NaN.  A NaN score passes through [Math.min] and [Math.max]:
    it is not clamped into the rating scale and is displayed as "NaN"
    under five empty stars. *)
Lemma displayPrediction_NaN_unclamped :
  ~ inRatingRange (clampRating NaN)
  /\ displayPrediction (js "1") (js "Toy Story") NaN
     = mkDisplay (js "1") (js "Toy Story") (starRow 0) (Some (js "NaN")).
Proof.
  split.
  - intros (c & Hc & _). vm_compute in Hc. discriminate Hc.
  - vm_compute. reflexivity.
Qed.

(** C9, as amended.  For every raw score other than NaN,
    [displayPrediction] clamps the score into [1, 5] (1 below the scale, 5
    above it, the score itself inside), renders [floor(clamped)] full
    stars followed by empty stars up to five, and shows the clamped score
    rounded to one decimal place; 0.3 is shown as "1.0", 7.9 as "5.0" and
    3.6 as "3.6" with three full stars. *)
Theorem displayPrediction_clamps (userId movieTitle : jsstring) (p : Number) :
  p <> NaN ->
  (exists c : Q,
      clampRating p = Fin c /\ (1 <= c <= 5)%Q
      /\ (forall q, p = Fin q ->
            ((q <= 1)%Q -> c = inject_Z 1)
            /\ ((5 <= q)%Q -> c = inject_Z 5)
            /\ ((1 < q < 5)%Q -> c = q))
      /\ (p = NInf -> c = inject_Z 1)
      /\ (p = PInf -> c = inject_Z 5)
      /\ 1 <= Qfloor c <= 5
      /\ starsHTML (displayPrediction userId movieTitle p)
         = starRow (Z.to_nat (Qfloor c))
      /\ exists n : Z,
           (inject_Z n - (1 # 2) <= c * 10 < inject_Z n + (1 # 2))%Q
           /\ ratingText (displayPrediction userId movieTitle p)
              = Some [digitChar (n / 10); DOT; digitChar (n mod 10)])
  /\ displayPrediction userId movieTitle (Fin (3 # 10))
     = mkDisplay userId movieTitle (starRow 1) (Some (js "1.0"))
  /\ displayPrediction userId movieTitle (Fin (79 # 10))
     = mkDisplay userId movieTitle (starRow 5) (Some (js "5.0"))
  /\ displayPrediction userId movieTitle (Fin (36 # 10))
     = mkDisplay userId movieTitle (starRow 3) (Some (js "3.6")).
Proof.
  intros Hp. split; [|repeat split; vm_compute; reflexivity].
  assert (Hc : exists c : Q,
             clampRating p = Fin c /\ (1 <= c <= 5)%Q
             /\ (forall q, p = Fin q ->
                   ((q <= 1)%Q -> c = inject_Z 1)
                   /\ ((5 <= q)%Q -> c = inject_Z 5)
                   /\ ((1 < q < 5)%Q -> c = q))
             /\ (p = NInf -> c = inject_Z 1)
             /\ (p = PInf -> c = inject_Z 5)).
  { destruct p as [| | |q]; [congruence| | |].
    - exists (inject_Z 5). split; [reflexivity|]. split; [qconst; lra|].
      split; [discriminate|]. split; [discriminate|reflexivity].
    - exists (inject_Z 1). split; [reflexivity|]. split; [qconst; lra|].
      split; [discriminate|]. split; [reflexivity|discriminate].
    - destruct (clampRating_Fin q) as (c & H1 & H2 & H3 & H4 & H5).
      exists c. split; [exact H1|]. split; [exact H2|].
      split; [intros q' [= <-]; tauto|]. split; discriminate. }
  destruct Hc as (c & Hc & Hr & Hq & Hn & Hi). exists c.
  assert (Hf : 1 <= Qfloor c <= 5).
  { split.
    - rewrite <- (Qfloor_Z 1). apply Qfloor_resp_le. apply Hr.
    - rewrite <- (Qfloor_Z 5). apply Qfloor_resp_le. apply Hr. }
  split; [exact Hc|]. split; [exact Hr|]. split; [exact Hq|].
  split; [exact Hn|]. split; [exact Hi|]. split; [exact Hf|]. split.
  - unfold displayPrediction. cbn [starsHTML]. rewrite Hc. cbn [Math_floor].
    rewrite starLoop_spec. cbn [app].
    remember (Qfloor c) as f eqn:Ef. clear Ef.
    assert (Hcases : f = 1 \/ f = 2 \/ f = 3 \/ f = 4 \/ f = 5) by lia.
    destruct Hcases as [-> | [-> | [-> | [-> | ->]]]]; reflexivity.
  - exists (Qfloor (c * 10 + (1 # 2))).
    pose proof (Qfloor_le (c * 10 + (1 # 2))) as Hlo.
    pose proof (Qlt_floor (c * 10 + (1 # 2))) as Hhi.
    rewrite inject_Z_plus in Hhi. qconst.
    split; [split; lra|].
    unfold displayPrediction. cbn [ratingText]. rewrite Hc. unfold toFixed1.
    assert (E0 : Qltb c 0 = false) by (apply Qltb_false; lra).
    rewrite E0.
    assert (E21 : Qle_bool (inject_Z (10 ^ 21)) c = false).
    { apply Qle_bool_false. qconst. lra. }
    rewrite E21. cbn [app]. f_equal. apply fixedDigits_two. split.
    + assert (H : Qfloor (inject_Z 10) <= Qfloor (c * 10 + (1 # 2))).
      { apply Qfloor_resp_le. qconst. lra. }
      rewrite Qfloor_Z in H. exact H.
    + assert (H : Qfloor (c * 10 + (1 # 2)) <= Qfloor (101 # 2)).
      { apply Qfloor_resp_le. lra. }
      exact H.
Qed.

Lemma displayPrediction_clamps_witness :
  Fin (36 # 10) <> NaN
  /\ displayPrediction (js "7") (js "Toy Story") (Fin (36 # 10))
     = mkDisplay (js "7") (js "Toy Story") (starRow 3) (Some (js "3.6")).
Proof.
  split; [discriminate|].
  apply (displayPrediction_clamps (js "7") (js "Toy Story") (Fin (36 # 10))).
  discriminate.
Defined.

(** The same three scores as the binary floating-point values the
    literals 0.3, 7.9 and 3.6 denote. *)
Lemma displayPrediction_doubles userId movieTitle :
  displayPrediction userId movieTitle (Fin (5404319552844595 # 18014398509481984))
  = mkDisplay userId movieTitle (starRow 1) (Some (js "1.0"))
  /\ displayPrediction userId movieTitle (Fin (4447304632028365 # 562949953421312))
     = mkDisplay userId movieTitle (starRow 5) (Some (js "5.0"))
  /\ displayPrediction userId movieTitle (Fin (8106479329266893 # 2251799813685248))
     = mkDisplay userId movieTitle (starRow 3) (Some (js "3.6")).
Proof. repeat split; vm_compute; reflexivity. Qed.

End Display.

(* ===================================================================== *)
(** ** Dataset dimensions *)
(* ===================================================================== *)

Section Dimensions.

Lemma js_le_refl x : x <> NaN -> js_le x x = true.
Proof.
  destruct x; cbn; try congruence; intros _. apply Qle_bool_iff. lra.
Qed.

Lemma js_le_max2_l h x : h <> NaN -> x <> NaN -> js_le h (max2 h x) = true.
Proof.
  intros Hh Hx. destruct h as [| | |p], x as [| | |q]; cbn; try congruence.
  - apply Qle_bool_iff. lra.
  - destruct (Qltb p q) eqn:E; cbn; apply Qle_bool_iff.
    + apply Qltb_true in E. lra.
    + lra.
Qed.

Lemma js_le_max2_r h x : h <> NaN -> x <> NaN -> js_le x (max2 h x) = true.
Proof.
  intros Hh Hx. destruct h as [| | |p], x as [| | |q]; cbn; try congruence.
  - apply Qle_bool_iff. lra.
  - destruct (Qltb p q) eqn:E; cbn; apply Qle_bool_iff.
    + lra.
    + apply Qltb_false in E. lra.
Qed.

Lemma js_le_trans x y z : js_le x y = true -> js_le y z = true -> js_le x z = true.
Proof.
  destruct x, y, z; cbn; try congruence.
  rewrite !Qle_bool_iff. intros; lra.
Qed.

Lemma max2_choice h x : h <> NaN -> x <> NaN -> max2 h x = h \/ max2 h x = x.
Proof.
  intros Hh Hx. destruct h as [| | |p], x as [| | |q]; cbn;
    try congruence; try tauto.
  destruct (Qltb p q); tauto.
Qed.

(** The loop of [Math.max] keeps an upper bound of what it has seen that
    is either its start value or one of the arguments. *)
Lemma fold_max2 xs : forall h,
  h <> NaN -> (forall x, x ∈ xs -> x <> NaN) ->
  let m := fold_left max2 xs h in
  m <> NaN /\ js_le h m = true /\ (forall x, x ∈ xs -> js_le x m = true)
  /\ (m = h \/ m ∈ xs).
Proof.
  induction xs as [|x xs IH]; intros h Hh Hxs; cbn.
  - repeat split; [exact Hh | apply js_le_refl; exact Hh | | tauto].
    intros x Hx. inversion Hx.
  - assert (Hx : x <> NaN) by (apply Hxs; left).
    assert (Hm : max2 h x <> NaN).
    { destruct (max2_choice h x Hh Hx) as [E | E]; rewrite E; assumption. }
    destruct (IH (max2 h x) Hm) as (H1 & H2 & H3 & H4).
    { intros y Hy. apply Hxs. right. exact Hy. }
    split; [exact H1|]. split.
    { apply (js_le_trans _ (max2 h x)); [apply js_le_max2_l; assumption | exact H2]. }
    split.
    + intros y Hy. apply elem_of_cons in Hy as [-> | Hy].
      * apply (js_le_trans _ (max2 h x)); [apply js_le_max2_r; assumption | exact H2].
      * apply H3. exact Hy.
    + destruct H4 as [H4 | H4].
      * rewrite H4. destruct (max2_choice h x Hh Hx) as [E | E]; rewrite E.
        -- left; reflexivity.
        -- right; left.
      * right; right. exact H4.
Qed.

(** [Math.max] on arguments without NaN: minus infinity for no argument,
    the maximum otherwise. *)
Lemma Math_max_spec xs :
  (forall x, x ∈ xs -> x <> NaN) ->
  (xs = [] /\ Math_max xs = NInf)
  \/ (xs <> [] /\ isMaximumOf (Math_max xs) xs).
Proof.
  intros Hxs. destruct xs as [|x xs]; [left; split; reflexivity|].
  right. split; [discriminate|]. unfold Math_max. cbn [fold_left].
  assert (Hx : x <> NaN) by (apply Hxs; left).
  assert (Hm : max2 NInf x = x) by (destruct x; reflexivity).
  rewrite Hm.
  destruct (fold_max2 xs x Hx) as (H1 & H2 & H3 & H4).
  { intros y Hy. apply Hxs. right. exact Hy. }
  split.
  - destruct H4 as [-> | H4]; [left | right; exact H4].
  - intros y Hy. apply elem_of_cons in Hy as [-> | Hy]; [exact H2 | apply H3, Hy].
Qed.

Lemma DataJs_loadData_ok fetch g moviesText ratingsText :
  fetch DataJs.moviesUrl = Response true (Some moviesText) ->
  fetch DataJs.ratingsUrl = Response true (Some ratingsText) ->
  DataJs.loadData fetch g
  = (Returned (storeParsed moviesText ratingsText).1,
     (storeParsed moviesText ratingsText).2).
Proof. intros Hm Hr. unfold DataJs.loadData. rewrite Hm, Hr. reflexivity. Qed.

Lemma DataFallback_loadData_ok rng fuel fetch g moviesText ratingsText :
  DataFallback.tryUrls fetch DataFallback.movieUrls = Some moviesText ->
  DataFallback.tryUrls fetch DataFallback.ratingUrls = Some ratingsText ->
  DataFallback.loadData rng fuel fetch g
  = Some (Returned (storeParsed moviesText ratingsText).1,
          (storeParsed moviesText ratingsText).2).
Proof.
  intros Hm Hr. unfold DataFallback.loadData, DataFallback.loadDataTry.
  rewrite Hm, Hr. reflexivity.
Qed.

End Dimensions.

(* ===================================================================== *)
(** ** Strings: lines, fields, trimming and the year suffix *)
(* ===================================================================== *)

Section Strings.

Lemma split_nonempty sep s : split sep s <> [].
Proof.
  destruct s as [|c s]; cbn; [discriminate|].
  destruct (c =? sep)%N; [discriminate|].
  destruct (split sep s); discriminate.
Qed.







Lemma trimStart_nil s : trimStart s = [] <-> blank s.
Proof.
  unfold blank. induction s as [|c s IH]; cbn.
  - split; [constructor | reflexivity].
  - destruct (is_ws c) eqn:E.
    + rewrite IH. split; [intros H; constructor; assumption|].
      intros H. inversion H; assumption.
    + split; [discriminate|]. intros H. inversion H; congruence.
Qed.

Lemma trimStart_blank_or_head s :
  trimStart s = [] \/ exists c r, trimStart s = c :: r /\ is_ws c = false.
Proof.
  induction s as [|c s IH]; cbn; [left; reflexivity|].
  destruct (is_ws c) eqn:E; [exact IH|]. right. eauto.
Qed.

(** A line survives the filter of the parsers exactly when it is not
    blank. *)
Lemma truthy_trim line : truthy (trim line) = true <-> ~ blank line.
Proof.
  assert (Hnil : trim line = [] <-> blank line).
  { unfold trim, trimEnd. rewrite <- trimStart_nil. split.
    - intros H. apply (f_equal reverse) in H. rewrite reverse_involutive in H.
      cbn in H. apply trimStart_nil in H. unfold blank in H.
      rewrite Forall_reverse in H.
      destruct (trimStart_blank_or_head line) as [E | (c & r & E & Hc)]; [exact E|].
      rewrite E in H. apply Forall_cons in H as [Hc' _]. cbn in Hc'. congruence.
    - intros H. rewrite H. reflexivity. }
  rewrite <- Hnil. destruct (trim line); cbn; split; congruence.
Qed.

Lemma nonBlankLines_spec text :
  nonBlankLines text = filter (fun line => ~ blank line) (split LF text).
Proof. apply list_filter_iff. intros line. apply truthy_trim. Qed.

Lemma matchYear_year y : isYear y -> matchYear y = true.
Proof.
  intros (d1 & d2 & d3 & d4 & -> & H1 & H2 & H3 & H4).
  cbn. rewrite H1, H2, H3, H4. reflexivity.
Qed.

Lemma matchYear_blank_year w y : blank w -> isYear y -> matchYear (w ++ y) = true.
Proof.
  intros Hw Hy. induction Hw as [|c w Hc Hw IH]; [apply matchYear_year, Hy|].
  cbn [app matchYear]. rewrite Hc, IH. cbn. apply orb_true_r.
Qed.

(** The pattern matches a whole string only if the string is white space
    followed by a year. *)
Lemma matchYear_inv s :
  matchYear s = true -> exists w y, s = w ++ y /\ blank w /\ isYear y.
Proof.
  induction s as [|c s IH]; [discriminate|].
  cbn [matchYear]. intros H. apply orb_true_iff in H as [H | H].
  - exists [], (c :: s). split; [reflexivity|]. split; [constructor|].
    destruct s as [|d1 [|d2 [|d3 [|d4 [|r [|]]]]]]; try discriminate.
    repeat (apply andb_true_iff in H as [H ?]).
    apply N.eqb_eq in H. subst c.
    match goal with Hr : (r =? RPAREN)%N = true |- _ => apply N.eqb_eq in Hr; subst r end.
    exists d1, d2, d3, d4. repeat split; assumption.
  - apply andb_true_iff in H as [Hc H].
    destruct (IH H) as (w & y & -> & Hw & Hy).
    exists (c :: w), y. split; [reflexivity|]. split; [constructor; assumption | exact Hy].
Qed.




Lemma parseItemLine_eq acc line :
  parseItemLine acc line
  = if decide (2 <= fieldCount PIPE line)%nat then acc ++ [movieOfLine line] else acc.
Proof.
  unfold parseItemLine, movieOfLine, field, fieldCount.
  destruct (split PIPE line) as [|p0 [|p1 r]]; reflexivity.
Qed.

Lemma parseRatingLine_eq acc line :
  parseRatingLine acc line
  = if decide (3 <= fieldCount TAB line)%nat then acc ++ [ratingOfLine line] else acc.
Proof.
  unfold parseRatingLine, ratingOfLine, field, fieldCount.
  destruct (split TAB line) as [|p0 [|p1 [|p2 r]]]; reflexivity.
Qed.

(** The two loops push one record per qualifying line, in order. *)
Lemma parseItem_loop lines : forall acc,
  fold_left parseItemLine lines acc
  = acc ++ (movieOfLine <$> filter (fun line => (2 <= fieldCount PIPE line)%nat) lines).
Proof.
  induction lines as [|line lines IH]; intros acc; cbn [fold_left].
  - cbn. rewrite app_nil_r. reflexivity.
  - rewrite IH, parseItemLine_eq, filter_cons.
    destruct (decide (2 <= fieldCount PIPE line)%nat).
    + rewrite fmap_cons, <- app_assoc. reflexivity.
    + reflexivity.
Qed.

Lemma parseRating_loop lines : forall acc,
  fold_left parseRatingLine lines acc
  = acc ++ (ratingOfLine <$> filter (fun line => (3 <= fieldCount TAB line)%nat) lines).
Proof.
  induction lines as [|line lines IH]; intros acc; cbn [fold_left].
  - cbn. rewrite app_nil_r. reflexivity.
  - rewrite IH, parseRatingLine_eq, filter_cons.
    destruct (decide (3 <= fieldCount TAB line)%nat).
    + rewrite fmap_cons, <- app_assoc. reflexivity.
    + reflexivity.
Qed.

End Strings.

(* ===================================================================== *)
(** ** Numerals *)
(* ===================================================================== *)

Section Numerals.

Lemma is_digit_cases c :
  is_digit c = true ->
  c ∈ [48; 49; 50; 51; 52; 53; 54; 55; 56; 57]%N.
Proof.
  unfold is_digit. intros H. apply andb_true_iff in H as [H1 H2].
  apply N.leb_le in H1, H2.
  assert (E : c = N.of_nat (N.to_nat c)) by lia. rewrite E.
  assert (Hn : (48 <= N.to_nat c <= 57)%nat) by lia.
  generalize dependent (N.to_nat c). intros n _ Hn.
  do 48 (destruct n as [|n]; [lia|]).
  do 10 (destruct n as [|n]; [clear; set_solver|]). lia.
Qed.

Lemma span_digits ds :
  Forall (fun c => is_digit c = true) ds -> span is_digit ds = (ds, []).
Proof.
  induction 1 as [|c ds Hc _ IH]; [reflexivity|].
  cbn [span]. rewrite Hc, IH. reflexivity.
Qed.

(** A field made of decimal digits parses to the number they denote. *)
Lemma parseInt_digits ds :
  ds <> [] -> Forall (fun c => is_digit c = true) ds ->
  parseInt ds = ofZ (decValue ds).
Proof.
  intros Hne Hds. destruct ds as [|c ds]; [congruence|].
  inversion Hds as [|? ? Hc Hrest]; subst.
  pose proof (span_digits _ Hds) as Hspan.
  unfold parseInt.
  assert (Htrim : trimStart (c :: ds) = c :: ds).
  { cbn [trimStart]. apply is_digit_cases in Hc.
    repeat (apply elem_of_cons in Hc as [-> | Hc]; [reflexivity|]). inversion Hc. }
  rewrite Htrim.
  assert (Hsign : (c =? MINUS)%N = false /\ (c =? PLUS)%N = false).
  { apply is_digit_cases in Hc.
    repeat (apply elem_of_cons in Hc as [-> | Hc]; [split; reflexivity|]). inversion Hc. }
  destruct Hsign as [-> ->].
  assert (Hhex : match c :: ds with
                 | z :: x :: r =>
                     if ((z =? 48) && ((x =? 120) || (x =? 88)))%N
                     then (true, r) else (false, c :: ds)
                 | _ => (false, c :: ds)
                 end = (false, c :: ds)).
  { destruct ds as [|x r]; [reflexivity|].
    inversion Hrest as [|? ? Hx _]; subst. apply is_digit_cases in Hx.
    assert (Ex : ((x =? 120) || (x =? 88))%N = false).
    { repeat (apply elem_of_cons in Hx as [-> | Hx]; [reflexivity|]). inversion Hx. }
    rewrite Ex, andb_false_r. reflexivity. }
  rewrite Hhex, Hspan. reflexivity.
Qed.


End Numerals.

(* ===================================================================== *)
(** ** The record parser *)
(* ===================================================================== *)

Section Parser.



(** No rating is parsed exactly when no non-blank line has three
    fields. *)
Lemma parseRatingData_nil_iff text :
  parseRatingData text = []
  <-> Forall (fun line => (fieldCount TAB line < 3)%nat) (nonBlankLines text).
Proof.
  unfold parseRatingData. rewrite parseRating_loop. cbn [app]. split.
  - intros H. apply fmap_nil_inv in H. apply Forall_forall. intros line Hline.
    destruct (decide (3 <= fieldCount TAB line)%nat) as [Hge|]; [|lia].
    exfalso. eapply filter_nil_not_elem_of; [exact H | exact Hge | exact Hline].
  - intros H. induction H as [|line lines Hl _ IH]; [reflexivity|].
    rewrite filter_cons_False by lia. exact IH.
Qed.

End Parser.

Section LoadedDimensions.



(** C10.  When no non-blank line of the ratings text has three fields,
    no rating is parsed and [numUsers], the maximum over no argument, is
    minus infinity: neither it nor the size [numUsers + 1] of the user
    embedding table is a positive integer.  Both loaders return that
    dataset once their sources answer. *)
Theorem empty_ratings_numUsers (moviesText ratingsText : jsstring) :
  Forall (fun line => (fieldCount TAB line < 3)%nat) (nonBlankLines ratingsText) ->
  parseRatingData ratingsText = []
  /\ ds_ratings (storeParsed moviesText ratingsText).1 = []
  /\ ds_numUsers (storeParsed moviesText ratingsText).1 = NInf
  /\ ~ isPositiveInteger (ds_numUsers (storeParsed moviesText ratingsText).1)
  /\ userInputDim (storeParsed moviesText ratingsText).1 = NInf
  /\ ~ isPositiveInteger (userInputDim (storeParsed moviesText ratingsText).1)
  /\ (forall fetch g,
        fetch DataJs.moviesUrl = Response true (Some moviesText) ->
        fetch DataJs.ratingsUrl = Response true (Some ratingsText) ->
        DataJs.loadData fetch g
        = (Returned (storeParsed moviesText ratingsText).1,
           (storeParsed moviesText ratingsText).2))
  /\ (forall rng fuel fetch g,
        DataFallback.tryUrls fetch DataFallback.movieUrls = Some moviesText ->
        DataFallback.tryUrls fetch DataFallback.ratingUrls = Some ratingsText ->
        DataFallback.loadData rng fuel fetch g
        = Some (Returned (storeParsed moviesText ratingsText).1,
                (storeParsed moviesText ratingsText).2)).
Proof.
  intros H. apply parseRatingData_nil_iff in H.
  assert (En : ds_numUsers (storeParsed moviesText ratingsText).1 = NInf).
  { cbn [storeParsed fst ds_numUsers]. rewrite H. reflexivity. }
  assert (Hnot : ~ isPositiveInteger NInf).
  { intros (n & _ & E). discriminate E. }
  split; [exact H|]. split; [exact H|]. split; [exact En|].
  split; [rewrite En; exact Hnot|].
  assert (Ei : userInputDim (storeParsed moviesText ratingsText).1 = NInf).
  { unfold userInputDim. rewrite En. reflexivity. }
  split; [exact Ei|]. split; [rewrite Ei; exact Hnot|].
  split; [intros; apply DataJs_loadData_ok; assumption|].
  intros; apply DataFallback_loadData_ok; assumption.
Qed.

Lemma empty_ratings_numUsers_witness :
  Forall (fun line => (fieldCount TAB line < 3)%nat) (nonBlankLines tablessRatings)
  /\ ds_numUsers (storeParsed sampleCatalogue tablessRatings).1 = NInf
  /\ DataJs.loadData (serving sampleCatalogue tablessRatings) initialGlobals
     = (Returned (storeParsed sampleCatalogue tablessRatings).1,
        (storeParsed sampleCatalogue tablessRatings).2).
Proof.
  assert (H : Forall (fun line => (fieldCount TAB line < 3)%nat)
                (nonBlankLines tablessRatings)).
  { vm_compute. repeat constructor. }
  split; [exact H|].
  destruct (empty_ratings_numUsers sampleCatalogue tablessRatings H)
    as (_ & _ & En & _ & _ & _ & Hjs & _).
  split; [exact En|]. apply Hjs; reflexivity.
Defined.

End LoadedDimensions.

(* ===================================================================== *)
(** ** The synthetic dataset *)
(* ===================================================================== *)

Section Synthetic.
Variable rng : Rng.

Lemma bind_random {A} (k : Q -> Gen A) pos :
  (r ← random rng; k r) pos = k (rng pos) (S pos).
Proof. reflexivity. Qed.

Lemma bind_Some {A B} (m : Gen A) (k : A -> Gen B) pos y :
  (m ≫= k) pos = Some y <-> exists a pos1, m pos = Some (a, pos1) /\ k a pos1 = Some y.
Proof.
  unfold mbind, Gen_bind, bindG. destruct (m pos) as [[a pos1]|]; split.
  - intros H. eauto.
  - intros (a' & pos' & [= <- <-] & H). exact H.
  - discriminate.
  - intros (a' & pos' & H & _). discriminate H.
Qed.

Lemma ofZ_inj a b : ofZ a = ofZ b -> a = b.
Proof. intros H. injection H. tauto. Qed.

Lemma scaled_range r n k :
  (0 <= r < 1)%Q -> 0 < n -> k <= scaled r n k <= k + n - 1.
Proof.
  intros [Hr0 Hr1] Hn. unfold scaled.
  assert (Hn' : (inject_Z 0 < inject_Z n)%Q) by (rewrite <- Zlt_Qlt; exact Hn).
  change (inject_Z 0) with 0%Q in Hn'.
  assert (H0 : (0 <= r * inject_Z n)%Q) by (apply Qmult_le_0_compat; lra).
  assert (H1 : (r * inject_Z n < inject_Z n)%Q).
  { rewrite <- (Qmult_1_l (inject_Z n)) at 2. apply Qmult_lt_compat_r; assumption. }
  assert (Hlo : 0 <= Qfloor (r * inject_Z n)).
  { rewrite <- (Qfloor_Z 0). apply Qfloor_resp_le. exact H0. }
  assert (Hhi : Qfloor (r * inject_Z n) < n).
  { rewrite Zlt_Qlt. eapply Qle_lt_trans; [apply Qfloor_le | exact H1]. }
  lia.
Qed.

Hypothesis Hrange : unitRange rng.

Lemma pickMovie_spec n : forall rated pos m pos',
  DataFallback.pickMovie rng n 20 rated pos = Some (m, pos') ->
  (m ∉ rated) /\ 1 <= m <= 20.
Proof.
  induction n as [|n IH]; intros rated pos m pos' H; [discriminate|].
  cbn [DataFallback.pickMovie] in H. rewrite bind_random in H.
  destruct (decide (scaled (rng pos) 20 1 ∈ rated)) as [Hin | Hnin].
  - eapply IH. exact H.
  - injection H as <- <-. split; [exact Hnin|].
    pose proof (scaled_range (rng pos) 20 1 (Hrange pos)). lia.
Qed.

Lemma drawRating_total pos :
  exists v pos', DataFallback.drawRating rng pos = Some (v, pos') /\ 1 <= v <= 5.
Proof.
  unfold DataFallback.drawRating. rewrite bind_random. unfold DataFallback.ratingFor.
  destruct (Qltb (rng pos) (6 # 10)); [|destruct (Qltb (rng pos) (9 # 10))].
  - rewrite bind_random. eexists _, _. split; [reflexivity|].
    pose proof (scaled_range (rng (S pos)) 2 4 (Hrange _)). lia.
  - eexists _, _. split; [reflexivity|]. lia.
  - rewrite bind_random. eexists _, _. split; [reflexivity|].
    pose proof (scaled_range (rng (S pos)) 2 1 (Hrange _)). lia.
Qed.

Variable fuel : nat.

(** The inner loop appends [todo] ratings of the user, for movies that are
    pairwise different and were not rated before. *)
Lemma rateMovies_spec todo : forall u rated rs pos rs' pos',
  DataFallback.rateMovies rng fuel todo u 20 rated rs pos = Some (rs', pos') ->
  exists new,
    rs' = rs ++ new /\ length new = todo
    /\ Forall (syntheticRating u rated) new
    /\ NoDup (movieId <$> new).
Proof.
  induction todo as [|todo IH]; intros u rated rs pos rs' pos' H.
  - injection H as <- <-. exists []. rewrite app_nil_r.
    repeat split; constructor.
  - cbn [DataFallback.rateMovies] in H.
    apply bind_Some in H as (m & pos1 & Hpick & H).
    apply bind_Some in H as (v & pos2 & Hdraw & H).
    apply pickMovie_spec in Hpick as [Hfresh Hm].
    destruct (drawRating_total pos1) as (v' & pos2' & Hdraw' & Hv).
    rewrite Hdraw in Hdraw'. injection Hdraw' as <- <-.
    apply IH in H as (new & -> & Hlen & Hall & Hnd).
    exists (mkRating (ofZ u) (ofZ m) (ofZ v) :: new).
    split; [rewrite <- app_assoc; reflexivity|].
    split; [cbn; rewrite Hlen; reflexivity|].
    split.
    + constructor.
      * split; [reflexivity|]. exists m, v. tauto.
      * eapply Forall_impl; [exact Hall|].
        intros r (Hu & m' & v' & Hm' & Hr' & Hn' & Hv').
        split; [exact Hu|]. exists m', v'.
        repeat split; try tauto.
        intros Hin. apply Hn'. apply elem_of_union. left. exact Hin.
    + cbn [fmap list_fmap movieId]. apply NoDup_cons. split; [|exact Hnd].
      intros Hin. apply list_elem_of_fmap in Hin as (r & Hr & Hrin).
      rewrite Forall_forall in Hall.
      destruct (Hall r Hrin) as (_ & m' & v' & Hm' & _ & Hn' & _).
      cbn in Hr. rewrite Hm' in Hr. apply ofZ_inj in Hr. subst m'.
      apply Hn'. apply elem_of_union. right. apply elem_of_singleton. reflexivity.
Qed.

Lemma ratingsOf_all u rs :
  Forall (fun r => userId r = ofZ u) rs -> ratingsOf u rs = rs.
Proof.
  unfold ratingsOf. induction 1 as [|r rs Hr _ IH]; [reflexivity|].
  rewrite filter_cons_True by exact Hr. rewrite IH. reflexivity.
Qed.

Lemma ratingsOf_none u rs :
  Forall (fun r => userId r <> ofZ u) rs -> ratingsOf u rs = [].
Proof.
  unfold ratingsOf. induction 1 as [|r rs Hr _ IH]; [reflexivity|].
  rewrite filter_cons_False by exact Hr. exact IH.
Qed.

(** The outer loop appends, for each of its users, between 5 and 14
    ratings for pairwise different movies. *)
Lemma rateUsers_spec todo : forall u rs pos rs' pos',
  DataFallback.rateUsers rng fuel todo u 20 rs pos = Some (rs', pos') ->
  exists new,
    rs' = rs ++ new
    /\ (5 * todo <= length new <= 14 * todo)%nat
    /\ Forall (ratingAmong u todo) new
    /\ forall w, u <= w < u + Z.of_nat todo ->
         (5 <= length (ratingsOf w new) <= 14)%nat
         /\ NoDup (movieId <$> ratingsOf w new).
Proof.
  induction todo as [|todo IH]; intros u rs pos rs' pos' H.
  - injection H as <- <-. exists []. rewrite app_nil_r.
    split; [reflexivity|]. split; [cbn; lia|]. split; [constructor|].
    intros w Hw. lia.
  - cbn [DataFallback.rateUsers] in H. rewrite bind_random in H.
    apply bind_Some in H as (rs1 & pos1 & Hblock & H).
    pose proof (scaled_range (rng pos) 10 5 (Hrange pos)) as Hnum.
    apply rateMovies_spec in Hblock as (block & -> & Hlen & Hall & Hnd).
    apply IH in H as (rest & -> & Hcount & Hrest & Hper).
    exists (block ++ rest). split; [rewrite <- app_assoc; reflexivity|].
    assert (Hblock_u : Forall (fun r => userId r = ofZ u) block).
    { eapply Forall_impl; [exact Hall|]. intros r [Hr _]. exact Hr. }
    split; [rewrite length_app; lia|].
    split.
    + apply Forall_app. split.
      * eapply Forall_impl; [exact Hall|]. intros r Hr. exists u. split; [lia | exact Hr].
      * eapply Forall_impl; [exact Hrest|]. intros r (w & Hw & Hr).
        exists w. split; [lia | exact Hr].
    + intros w Hw. unfold ratingsOf. rewrite filter_app.
      fold (ratingsOf w block) (ratingsOf w rest).
      destruct (decide (w = u)) as [-> | Hne].
      * rewrite (ratingsOf_all u block) by exact Hblock_u.
        rewrite (ratingsOf_none u rest).
        -- rewrite app_nil_r. split; [lia | exact Hnd].
        -- eapply Forall_impl; [exact Hrest|]. intros r (w & Hw' & Hr & _) E.
           rewrite Hr in E. apply ofZ_inj in E. lia.
      * rewrite (ratingsOf_none w block).
        -- cbn [app]. apply Hper. lia.
        -- eapply Forall_impl; [exact Hblock_u|]. intros r Hr E.
           rewrite Hr in E. apply ofZ_inj in E. congruence.
Qed.

End Synthetic.

Section Termination.
Variable rng : Rng.

(** A larger budget does not change what a loop returns. *)
Lemma pickMovie_mono n : forall n' rated pos x,
  DataFallback.pickMovie rng n 20 rated pos = Some x -> (n <= n')%nat ->
  DataFallback.pickMovie rng n' 20 rated pos = Some x.
Proof.
  induction n as [|n IH]; intros n' rated pos x H Hle; [discriminate|].
  destruct n' as [|n']; [lia|].
  cbn [DataFallback.pickMovie] in *. rewrite bind_random in *.
  destruct (decide (scaled (rng pos) 20 1 ∈ rated)); [|exact H].
  apply IH; [exact H | lia].
Qed.

Lemma rateMovies_mono fuel fuel' todo : forall u rated rs pos x,
  DataFallback.rateMovies rng fuel todo u 20 rated rs pos = Some x -> (fuel <= fuel')%nat ->
  DataFallback.rateMovies rng fuel' todo u 20 rated rs pos = Some x.
Proof.
  induction todo as [|todo IH]; intros u rated rs pos x H Hle; [exact H|].
  cbn [DataFallback.rateMovies] in *.
  apply bind_Some in H as (m & pos1 & Hpick & H).
  apply bind_Some in H as (v & pos2 & Hdraw & H).
  apply bind_Some. exists m, pos1. split; [eapply pickMovie_mono; eassumption|].
  apply bind_Some. exists v, pos2. split; [exact Hdraw|].
  apply IH; assumption.
Qed.

Lemma rateUsers_mono fuel fuel' todo : forall u rs pos x,
  DataFallback.rateUsers rng fuel todo u 20 rs pos = Some x -> (fuel <= fuel')%nat ->
  DataFallback.rateUsers rng fuel' todo u 20 rs pos = Some x.
Proof.
  induction todo as [|todo IH]; intros u rs pos x H Hle; [exact H|].
  cbn [DataFallback.rateUsers] in *. rewrite bind_random in *.
  apply bind_Some in H as (rs1 & pos1 & Hblock & H).
  apply bind_Some. exists rs1, pos1. split; [eapply rateMovies_mono; eassumption|].
  apply IH; assumption.
Qed.

(** Fewer than twenty rated movies leave one of the twenty ids free. *)
Lemma free_movie (rated : gset Z) :
  (size rated < 20)%nat -> exists m, 1 <= m <= 20 /\ (m ∉ rated).
Proof.
  intros Hsize.
  destruct (decide (Forall (fun m => m ∈ rated) (seqZ 1 20))) as [Hall | Hnot].
  - exfalso.
    assert (Hsub : list_to_set (seqZ 1 20) ⊆ rated).
    { intros m Hm. apply elem_of_list_to_set in Hm.
      rewrite Forall_forall in Hall. apply Hall. exact Hm. }
    apply subseteq_size in Hsub.
    assert (E : size (list_to_set (seqZ 1 20) : gset Z) = 20%nat).
    { rewrite size_list_to_set; [rewrite length_seqZ; reflexivity | apply NoDup_seqZ]. }
    lia.
  - apply not_Forall_Exists in Hnot; [|apply _].
    apply Exists_exists in Hnot as (m & Hm & Hfree).
    apply elem_of_seqZ in Hm. exists m. split; [lia | exact Hfree].
Qed.

Hypothesis Hfair : fairMovies rng.

(** The [do ... while] loop ends as soon as a free movie id is drawn. *)
Lemma pickMovie_reaches d : forall rated pos,
  (scaled (rng (pos + d)%nat) 20 1 ∉ rated) ->
  exists n m pos', DataFallback.pickMovie rng n 20 rated pos = Some (m, pos').
Proof.
  induction d as [|d IH]; intros rated pos Hfree.
  - exists 1%nat. cbn [DataFallback.pickMovie]. rewrite bind_random.
    replace (pos + 0)%nat with pos in Hfree by lia.
    rewrite decide_False by exact Hfree. eexists _, _. reflexivity.
  - destruct (decide (scaled (rng pos) 20 1 ∈ rated)) as [Hin | Hnin].
    + destruct (IH rated (S pos)) as (n & m & pos' & H).
      { replace (S pos + d)%nat with (pos + S d)%nat by lia. exact Hfree. }
      exists (S n), m, pos'. cbn [DataFallback.pickMovie]. rewrite bind_random.
      rewrite decide_True by exact Hin. exact H.
    + exists 1%nat. cbn [DataFallback.pickMovie]. rewrite bind_random.
      rewrite decide_False by exact Hnin. eexists _, _. reflexivity.
Qed.

Lemma pickMovie_terminates rated pos :
  (size rated < 20)%nat ->
  exists n m pos', DataFallback.pickMovie rng n 20 rated pos = Some (m, pos').
Proof.
  intros Hsize. destruct (free_movie rated Hsize) as (m & Hm & Hfree).
  destruct (Hfair pos m Hm) as (k & Hk & E).
  apply (pickMovie_reaches (k - pos)).
  replace (pos + (k - pos))%nat with k by lia. rewrite E. exact Hfree.
Qed.

Hypothesis Hrange : unitRange rng.

Lemma rateMovies_terminates todo : forall u rated rs pos,
  (size rated + todo <= 20)%nat ->
  exists fuel rs' pos', DataFallback.rateMovies rng fuel todo u 20 rated rs pos = Some (rs', pos').
Proof.
  induction todo as [|todo IH]; intros u rated rs pos Hsize.
  - exists 0%nat. eexists _, _. reflexivity.
  - destruct (pickMovie_terminates rated pos) as (n & m & pos1 & Hpick); [lia|].
    destruct (drawRating_total rng Hrange pos1) as (v & pos2 & Hdraw & _).
    destruct (pickMovie_spec rng Hrange _ _ _ _ _ Hpick) as [Hfresh _].
    destruct (IH u (rated ∪ {[m]}) (rs ++ [mkRating (ofZ u) (ofZ m) (ofZ v)]) pos2)
      as (fuel & rs' & pos' & H).
    { rewrite size_union by (apply disjoint_singleton_r; exact Hfresh).
      rewrite size_singleton. lia. }
    exists (Nat.max n fuel), rs', pos'. cbn [DataFallback.rateMovies].
    apply bind_Some. exists m, pos1.
    split; [eapply pickMovie_mono; [exact Hpick | lia]|].
    apply bind_Some. exists v, pos2. split; [exact Hdraw|].
    eapply rateMovies_mono; [exact H | lia].
Qed.

Lemma rateUsers_terminates todo : forall u rs pos,
  exists fuel rs' pos', DataFallback.rateUsers rng fuel todo u 20 rs pos = Some (rs', pos').
Proof.
  induction todo as [|todo IH]; intros u rs pos.
  - exists 0%nat. eexists _, _. reflexivity.
  - pose proof (scaled_range (rng pos) 10 5 (Hrange pos)) as Hnum.
    destruct (rateMovies_terminates (Z.to_nat (scaled (rng pos) 10 5)) u ∅ rs (S pos))
      as (fuel1 & rs1 & pos1 & Hblock).
    { rewrite size_empty. lia. }
    destruct (IH (u + 1) rs1 pos1) as (fuel2 & rs' & pos' & H).
    exists (Nat.max fuel1 fuel2), rs', pos'. cbn [DataFallback.rateUsers]. rewrite bind_random.
    apply bind_Some. exists rs1, pos1.
    split; [eapply rateMovies_mono; [exact Hblock | lia]|].
    eapply rateUsers_mono; [exact H | lia].
Qed.

End Termination.

Section Bands.
Variable rng : Rng.
Hypothesis Hrange : unitRange rng.




End Bands.

Lemma cyclicRng_unitRange : unitRange cyclicRng.
Proof.
  intros k. unfold cyclicRng, Qle, Qlt. cbn.
  pose proof (Z.mod_pos_bound (Z.of_nat k) 20). lia.
Qed.

Lemma cyclicRng_scaled k : scaled (cyclicRng k) 20 1 = Z.of_nat k mod 20 + 1.
Proof.
  unfold scaled, cyclicRng. cbn. f_equal. apply Z.div_mul. lia.
Qed.

Lemma cyclicRng_fair : fairMovies cyclicRng.
Proof.
  intros pos m Hm.
  exists (Z.to_nat (Z.of_nat pos + (m - 1 - Z.of_nat pos) mod 20)).
  pose proof (Z.mod_pos_bound (m - 1 - Z.of_nat pos) 20).
  split; [lia|]. rewrite cyclicRng_scaled. rewrite Z2Nat.id by lia.
  rewrite Zplus_mod_idemp_r.
  replace (Z.of_nat pos + (m - 1 - Z.of_nat pos)) with (m - 1) by lia.
  rewrite Z.mod_small by lia. lia.
Qed.

Section SampleData.
Variable rng : Rng.
Hypothesis Hrange : unitRange rng.

(** What [loadSampleData] returns, whenever it returns. *)
Lemma loadSampleData_spec fuel g d g' :
  DataFallback.loadSampleData rng fuel g = Some (d, g') ->
  g' = globalsOf d
  /\ ds_movies d = DataFallback.sampleMovies
  /\ ds_numMovies d = ofZ 20
  /\ ds_numUsers d = ofZ 50
  /\ (250 <= length (ds_ratings d) <= 700)%nat
  /\ Forall (ratingAmong 1 50) (ds_ratings d)
  /\ forall u, 1 <= u <= 50 ->
       (5 <= length (ratingsOf u (ds_ratings d)) <= 14)%nat
       /\ NoDup (movieId <$> ratingsOf u (ds_ratings d)).
Proof.
  unfold DataFallback.loadSampleData.
  change (Z.of_nat (length DataFallback.sampleMovies)) with 20.
  change (Z.to_nat 50) with 50%nat.
  destruct (DataFallback.rateUsers rng fuel 50 1 20 [] 0%nat) as [[rs pos]|] eqn:E;
    [|discriminate].
  intros [= <- <-].
  apply (rateUsers_spec rng Hrange) in E as (new & -> & Hcount & Hall & Hper).
  cbn [app ds_movies ds_ratings ds_numMovies ds_numUsers].
  split; [reflexivity|]. split; [reflexivity|]. split; [reflexivity|].
  split; [reflexivity|]. split; [lia|]. split; [exact Hall|].
  intros u Hu. apply Hper. lia.
Qed.

Hypothesis Hfair : fairMovies rng.

(** With a fair stream of draws, [loadSampleData] returns. *)
Lemma loadSampleData_returns g :
  exists fuel d, DataFallback.loadSampleData rng fuel g = Some (d, globalsOf d).
Proof.
  destruct (rateUsers_terminates rng Hfair Hrange 50 1 [] 0%nat)
    as (fuel & rs & pos & H).
  exists fuel. unfold DataFallback.loadSampleData.
  change (Z.of_nat (length DataFallback.sampleMovies)) with 20.
  change (Z.to_nat 50) with 50%nat. rewrite H.
  exists (mkDataset DataFallback.sampleMovies rs (ofZ 50) (ofZ 20)). reflexivity.
Qed.

End SampleData.

Section Sources.
Variable fetch : Fetch.

(** No text is retrieved exactly when every source fails. *)
Lemma tryUrls_None urls :
  DataFallback.tryUrls fetch urls = None <-> Forall (sourceFails fetch) urls.
Proof.
  induction urls as [|url urls IH]; cbn [DataFallback.tryUrls].
  - split; [constructor | reflexivity].
  - destruct (fetch url) as [|[|] [text|]] eqn:E.
    + rewrite IH. split; [intros H; constructor; [|exact H] | intros H; inversion H; assumption].
      intros text. rewrite E. discriminate.
    + split; [discriminate|]. intros H. inversion H as [|? ? Hf _]; subst.
      exfalso. exact (Hf text E).
    + rewrite IH. split; [intros H; constructor; [|exact H] | intros H; inversion H; assumption].
      intros text. rewrite E. discriminate.
    + rewrite IH. split; [intros H; constructor; [|exact H] | intros H; inversion H; assumption].
      intros text'. rewrite E. discriminate.
    + rewrite IH. split; [intros H; constructor; [|exact H] | intros H; inversion H; assumption].
      intros text'. rewrite E. discriminate.
Qed.

(** The first source that answers wins. *)
Lemma tryUrls_Some urls text :
  DataFallback.tryUrls fetch urls = Some text ->
  exists failed url rest,
    urls = failed ++ url :: rest /\ Forall (sourceFails fetch) failed
    /\ fetch url = Response true (Some text).
Proof.
  induction urls as [|url urls IH]; cbn [DataFallback.tryUrls]; [discriminate|].
  intros H.
  assert (Hcases : fetch url = Response true (Some text)
                   \/ (sourceFails fetch url /\ DataFallback.tryUrls fetch urls = Some text)).
  { destruct (fetch url) as [|[|] [text'|]] eqn:E.
    - right. split; [intros t; rewrite E; discriminate | exact H].
    - left. congruence.
    - right. split; [intros t; rewrite E; discriminate | exact H].
    - right. split; [intros t; rewrite E; discriminate | exact H].
    - right. split; [intros t; rewrite E; discriminate | exact H]. }
  destruct Hcases as [E | [Hf Hrest]].
  - exists [], url, urls. repeat split; [constructor | exact E].
  - destruct (IH Hrest) as (failed & url' & rest & -> & Hfailed & E).
    exists (url :: failed), url', rest. repeat split; [constructor; assumption | exact E].
Qed.

(** [loadData] of the multi-source loader: the parsed files when both
    are retrieved, the synthetic dataset otherwise. *)
Lemma loadData_cases rng fuel g :
  (exists moviesText ratingsText,
      DataFallback.tryUrls fetch DataFallback.movieUrls = Some moviesText
      /\ DataFallback.tryUrls fetch DataFallback.ratingUrls = Some ratingsText
      /\ DataFallback.loadData rng fuel fetch g
         = Some (returned (storeParsed moviesText ratingsText)))
  \/ ((DataFallback.tryUrls fetch DataFallback.movieUrls = None
       \/ DataFallback.tryUrls fetch DataFallback.ratingUrls = None)
      /\ DataFallback.loadData rng fuel fetch g
         = returned <$> DataFallback.loadSampleData rng fuel g).
Proof.
  unfold DataFallback.loadData, DataFallback.loadDataTry.
  destruct (DataFallback.tryUrls fetch DataFallback.movieUrls) as [moviesText|];
    [destruct (DataFallback.tryUrls fetch DataFallback.ratingUrls) as [ratingsText|]|].
  - left. exists moviesText, ratingsText. repeat split; reflexivity.
  - right. split; [right; reflexivity|].
    destruct (DataFallback.loadSampleData rng fuel g) as [[d g']|]; reflexivity.
  - right. split; [left; reflexivity|].
    destruct (DataFallback.loadSampleData rng fuel g) as [[d g']|]; reflexivity.
Qed.

End Sources.

(* ===================================================================== *)
(** ** The synthetic fallback and the loaders *)
(* ===================================================================== *)



(** C5, on data.js.  With no source answering, the [loadData] of data.js
    ends in its [catch] block, which rethrows: the failure reaches the
    caller and no dataset is returned. *)
Lemma DataJs_loadData_propagates :
  DataJs.loadData offline initialGlobals = (Thrown FetchRejected, initialGlobals)
  /\ ~ (exists d g', DataJs.loadData offline initialGlobals = (Returned d, g')).
Proof.
  split; [reflexivity|]. intros (d & g' & H). discriminate H.
Qed.

(** C5, as amended.  The multi-source [loadData] never throws: with draws
    in [0, 1) that keep producing every movie id it returns a dataset for
    every behaviour of the sources; when every source of the movie file or
    every source of the rating file fails, it returns what
    [loadSampleData] returns, a dataset of the 20 sample movies with at
    least 250 ratings. *)
Theorem fallback_loadData_never_throws (rng : Rng) (fetch : Fetch) (g : Globals) :
  unitRange rng -> fairMovies rng ->
  (forall fuel r g',
      DataFallback.loadData rng fuel fetch g = Some (r, g') ->
      exists d, r = Returned d /\ g' = globalsOf d)
  /\ (exists fuel d,
        DataFallback.loadData rng fuel fetch g = Some (Returned d, globalsOf d))
  /\ (Forall (sourceFails fetch) DataFallback.movieUrls
      \/ Forall (sourceFails fetch) DataFallback.ratingUrls ->
      (forall fuel,
          DataFallback.loadData rng fuel fetch g
          = returned <$> DataFallback.loadSampleData rng fuel g)
      /\ (exists fuel d,
            DataFallback.loadData rng fuel fetch g = Some (Returned d, globalsOf d))
      /\ (forall fuel d g',
            DataFallback.loadData rng fuel fetch g = Some (Returned d, g') ->
            ds_movies d = DataFallback.sampleMovies
            /\ length (ds_movies d) = 20%nat
            /\ (250 <= length (ds_ratings d))%nat
            /\ ds_numUsers d = ofZ 50 /\ ds_numMovies d = ofZ 20)).
Proof.
  intros Hrange Hfair.
  assert (Hsample : forall fuel r g',
             returned <$> DataFallback.loadSampleData rng fuel g = Some (r, g') ->
             exists d, DataFallback.loadSampleData rng fuel g = Some (d, g')
                       /\ r = Returned d /\ g' = globalsOf d).
  { intros fuel r g' H.
    destruct (DataFallback.loadSampleData rng fuel g) as [[d g1]|] eqn:E;
      [|discriminate].
    injection H as <- <-. exists d.
    apply (loadSampleData_spec rng Hrange) in E as (-> & _). tauto. }
  split; [|split].
  - intros fuel r g' H.
    destruct (loadData_cases fetch rng fuel g)
      as [(mt & rt & _ & _ & E) | [_ E]]; rewrite E in H.
    + injection H as <- <-. eexists. split; reflexivity.
    + apply Hsample in H as (d & _ & -> & ->). eexists. split; reflexivity.
  - destruct (loadData_cases fetch rng 0 g) as [(mt & rt & Hm & Hr & E) | [Hnone _]].
    + exists 0%nat, (storeParsed mt rt).1. rewrite E. reflexivity.
    + destruct (loadSampleData_returns rng Hrange Hfair g) as (fuel & d & Hd).
      exists fuel, d.
      destruct (loadData_cases fetch rng fuel g)
        as [(mt & rt & Hm & Hr & E) | [_ E]]; rewrite E.
      * exfalso. destruct Hnone; congruence.
      * rewrite Hd. reflexivity.
  - intros Hfail.
    assert (Hnone : DataFallback.tryUrls fetch DataFallback.movieUrls = None
                    \/ DataFallback.tryUrls fetch DataFallback.ratingUrls = None).
    { destruct Hfail as [H | H]; [left | right]; apply tryUrls_None; exact H. }
    assert (Heq : forall fuel,
               DataFallback.loadData rng fuel fetch g
               = returned <$> DataFallback.loadSampleData rng fuel g).
    { intros fuel. destruct (loadData_cases fetch rng fuel g)
        as [(mt & rt & Hm & Hr & _) | [_ E]]; [|exact E].
      destruct Hnone; congruence. }
    split; [exact Heq|]. split.
    + destruct (loadSampleData_returns rng Hrange Hfair g) as (fuel & d & Hd).
      exists fuel, d. rewrite Heq, Hd. reflexivity.
    + intros fuel d g' H. rewrite Heq in H.
      apply Hsample in H as (d' & Hd & [= <-] & _).
      apply (loadSampleData_spec rng Hrange) in Hd
        as (_ & Hmovies & Hnm & Hnu & Hcount & _).
      split; [exact Hmovies|]. split; [rewrite Hmovies; reflexivity|].
      split; [lia|]. split; assumption.
Qed.

Lemma fallback_loadData_never_throws_witness :
  unitRange cyclicRng /\ fairMovies cyclicRng
  /\ Forall (sourceFails offline) DataFallback.movieUrls
  /\ exists fuel d,
       DataFallback.loadData cyclicRng fuel offline initialGlobals
       = Some (Returned d, globalsOf d).
Proof.
  split; [exact cyclicRng_unitRange|]. split; [exact cyclicRng_fair|].
  split; [repeat constructor; intros text; discriminate|].
  destruct (fallback_loadData_never_throws cyclicRng offline initialGlobals
              cyclicRng_unitRange cyclicRng_fair) as (_ & Hreturns & _).
  exact Hreturns.
Defined.

(* ===================================================================== *)
(** ** The session under arbitrary events *)
(* ===================================================================== *)

Section SessionInvariants.

(** What [predictRating] leaves alone, whatever the selection and the
    answer of the engine. *)
Lemma predictRating_frame userId movieId answer s :
  model (predictRating userId movieId answer s) = model s
  /\ globals (predictRating userId movieId answer s) = globals s
  /\ status (predictRating userId movieId answer s) = status s
  /\ progress (predictRating userId movieId answer s) = progress s
  /\ training (predictRating userId movieId answer s) = training s.
Proof.
  unfold predictRating.
  destruct (negb (truthy userId) || negb (truthy movieId)); [repeat split|].
  destruct (model s) as [m|] eqn:Em; [|cbn; rewrite Em; repeat split].
  destruct answer as [e | e | p]; cbn;
    [| |destruct (findMovie (movies (globals s)) movieId)];
    cbn; rewrite Em; repeat split.
Qed.

Lemma step_keeps_model s ev : is_Some (model s) -> is_Some (model (step s ev)).
Proof.
  intros Hm. destruct ev as [epoch loss | | e | userId movieId answer]; cbn [step].
  - destruct (training s); [exact Hm | | exact Hm].
    cbn. destruct Hm as [m ->]. eexists; reflexivity.
  - unfold trainModel_resolved. destruct (training s); exact Hm.
  - unfold trainModel_rejected. destruct (training s); exact Hm.
  - destruct (predictRating_frame userId movieId answer s) as (-> & _). exact Hm.
Qed.

Lemma run_keeps_model evs : forall s, is_Some (model s) -> is_Some (model (run s evs)).
Proof.
  induction evs as [|ev evs IH]; intros s Hm; [exact Hm|].
  cbn. apply IH. apply step_keeps_model. exact Hm.
Qed.

Lemma step_keeps_no_model s ev :
  model s = None -> training s = TrainReturned -> liveTensors s = ∅ ->
  model (step s ev) = None /\ training (step s ev) = TrainReturned
  /\ liveTensors (step s ev) = ∅ /\ status (step s ev) = status s.
Proof.
  intros Hm Ht Hl.
  destruct ev as [epoch loss | | e | userId movieId answer]; cbn [step].
  - rewrite Ht. tauto.
  - unfold trainModel_resolved. rewrite Ht. tauto.
  - unfold trainModel_rejected. rewrite Ht. tauto.
  - destruct (predictRating_frame userId movieId answer s) as (-> & _ & -> & _ & ->).
    repeat split; try assumption.
    unfold predictRating.
    destruct (negb (truthy userId) || negb (truthy movieId)); [exact Hl|].
    rewrite Hm. exact Hl.
Qed.

Lemma tensor1d_fresh s :
  tensorsFresh s ->
  tensorsFresh (tensor1d s).2 /\ (tensor1d s).1 = nextTensor s
  /\ nextTensor (tensor1d s).2 = S (nextTensor s)
  /\ liveTensors (tensor1d s).2 = liveTensors s ∪ {[nextTensor s]}.
Proof.
  intros H. repeat split. intros t Ht. cbn in *.
  apply elem_of_union in Ht as [Ht | Ht].
  - apply H in Ht. lia.
  - apply elem_of_singleton in Ht. lia.
Qed.

Lemma dispose_fresh t s : tensorsFresh s -> tensorsFresh (dispose t s).
Proof.
  intros H t' Ht'. cbn in *. apply elem_of_difference in Ht' as [Ht' _].
  apply H. exact Ht'.
Qed.

Lemma add_remove3 (L : gset nat) a b c :
  a ∉ L -> b ∉ L -> c ∉ L ->
  (L ∪ {[a]} ∪ {[b]} ∪ {[c]}) ∖ {[a]} ∖ {[b]} ∖ {[c]} = L.
Proof.
  intros Ha Hb Hc. apply leibniz_equiv. intros x. set_unfold.
  intuition (subst; try contradiction; auto).
Qed.

Lemma union_pair (L : gset nat) a b : L ∪ {[a]} ∪ {[b]} = L ∪ {[a; b]}.
Proof. apply leibniz_equiv. intros x. set_unfold. tauto. Qed.

Lemma union_triple (L : gset nat) a b c :
  L ∪ {[a]} ∪ {[b]} ∪ {[c]} = L ∪ {[a; b; c]}.
Proof. apply leibniz_equiv. intros x. set_unfold. tauto. Qed.

(** Tensor accounting of one prediction that reaches the engine. *)
Lemma predictRating_tensors c1 userId c2 movieId answer s :
  tensorsFresh s -> is_Some (model s) ->
  tensorsFresh (predictRating (c1 :: userId) (c2 :: movieId) answer s)
  /\ liveTensors (predictRating (c1 :: userId) (c2 :: movieId) answer s)
     = match answer with
       | Score _ => liveTensors s
       | PredictThrows _ =>
           liveTensors s ∪ {[nextTensor s; S (nextTensor s)]}
       | DataRejects _ =>
           liveTensors s ∪ {[nextTensor s; S (nextTensor s); S (S (nextTensor s))]}
       end.
Proof.
  intros Hfresh [m Hm]. unfold predictRating. cbn [truthy negb orb]. rewrite Hm.
  assert (Hnot : forall k, (nextTensor s + k)%nat ∉ liveTensors s).
  { intros k Hin. apply Hfresh in Hin. lia. }
  pose proof (Hnot 0%nat) as H0. pose proof (Hnot 1%nat) as H1.
  pose proof (Hnot 2%nat) as H2.
  replace (nextTensor s + 0)%nat with (nextTensor s) in H0 by lia.
  replace (nextTensor s + 1)%nat with (S (nextTensor s)) in H1 by lia.
  replace (nextTensor s + 2)%nat with (S (S (nextTensor s))) in H2 by lia.
  destruct answer as [e | e | p]; cbn.
  - split; [|apply union_pair].
    intros t Ht. cbn in Ht. unfold tensorsFresh in Hfresh.
    repeat (apply elem_of_union in Ht as [Ht | Ht]);
      try (apply elem_of_singleton in Ht); try (apply Hfresh in Ht); cbn; lia.
  - split; [|apply union_triple].
    intros t Ht. cbn in Ht. unfold tensorsFresh in Hfresh.
    repeat (apply elem_of_union in Ht as [Ht | Ht]);
      try (apply elem_of_singleton in Ht); try (apply Hfresh in Ht); cbn; lia.
  - assert (Hlive : (liveTensors s ∪ {[nextTensor s]} ∪ {[S (nextTensor s)]}
                      ∪ {[S (S (nextTensor s))]}) ∖ {[nextTensor s]}
                      ∖ {[S (nextTensor s)]} ∖ {[S (S (nextTensor s))]}
                    = liveTensors s).
    { apply add_remove3; assumption. }
    destruct (findMovie (movies (globals s)) (c2 :: movieId)); cbn; rewrite Hlive;
      (split; [|reflexivity]); intros t Ht; cbn in Ht; rewrite Hlive in Ht;
      apply Hfresh in Ht; cbn; lia.
Qed.

Lemma step_fresh s ev : tensorsFresh s -> tensorsFresh (step s ev).
Proof.
  intros H. destruct ev as [epoch loss | | e | userId movieId answer]; cbn [step].
  - destruct (training s); exact H.
  - unfold trainModel_resolved. destruct (training s); [exact H | | exact H].
    intros t Ht. cbn in *. repeat (apply elem_of_difference in Ht as [Ht _]).
    apply H. exact Ht.
  - unfold trainModel_rejected. destruct (training s); exact H.
  - unfold predictRating.
    destruct (negb (truthy userId) || negb (truthy movieId)) eqn:Esel; [exact H|].
    destruct (model s) as [m|] eqn:Em; [|exact H].
    apply orb_false_iff in Esel as [Eu Em'].
    destruct userId as [|c1 userId]; [discriminate|].
    destruct movieId as [|c2 movieId]; [discriminate|].
    pose proof (predictRating_tensors c1 userId c2 movieId answer s H
                  (ex_intro _ m Em)) as [Hf _].
    unfold predictRating in Hf. cbn [truthy negb orb] in Hf. rewrite Em in Hf.
    exact Hf.
Qed.

Lemma run_fresh evs : forall s, tensorsFresh s -> tensorsFresh (run s evs).
Proof.
  induction evs as [|ev evs IH]; intros s H; [exact H|].
  cbn. apply IH. apply step_fresh. exact H.
Qed.

Lemma trainModel_start_fresh createFailure g :
  tensorsFresh (trainModel_start createFailure (initialSession g)).
Proof.
  destruct createFailure as [e|]; intros t Ht; cbn in *.
  - apply elem_of_empty in Ht. contradiction.
  - repeat (apply elem_of_union in Ht as [Ht | Ht]);
      try (apply elem_of_singleton in Ht); try lia.
    apply elem_of_empty in Ht. contradiction.
Qed.

Lemma epochs_count epochs : forall s t1 t2 t3 m,
  training s = AwaitingFit t1 t2 t3 -> model s = Some m ->
  model (run s (epochEvents epochs))
  = Some (mkModel (compiled m) (epochsDone m + length epochs)).
Proof.
  induction epochs as [|[epoch loss] epochs IH]; intros s t1 t2 t3 m Ht Hm.
  - cbn. rewrite Hm, Nat.add_0_r. destruct m; reflexivity.
  - cbn [epochEvents fmap list_fmap run fold_left step]. rewrite Ht.
    change (fold_left step ((fun '(epoch, loss) => EpochEnd epoch loss) <$> epochs) ?x)
      with (run x (epochEvents epochs)).
    erewrite IH; [|exact Ht|cbn; rewrite Hm; reflexivity].
    cbn. f_equal. f_equal. lia.
Qed.

Lemma scoreClicks_keep clicks : forall s,
  tensorsFresh s -> is_Some (model s) ->
  liveTensors (run s (scoreClicks clicks)) = liveTensors s
  /\ model (run s (scoreClicks clicks)) = model s
  /\ status (run s (scoreClicks clicks)) = status s
  /\ progress (run s (scoreClicks clicks)) = progress s
  /\ training (run s (scoreClicks clicks)) = training s.
Proof.
  induction clicks as [|[[userId movieId] score] clicks IH]; intros s Hf Hm.
  - repeat split.
  - cbn [scoreClicks fmap list_fmap run fold_left step].
    change (fold_left step ?l ?x) with (run x l).
    fold (scoreClicks clicks).
    set (s1 := predictRating userId movieId (Score score) s).
    destruct (predictRating_frame userId movieId (Score score) s)
      as (Hm1 & _ & Hs1 & Hp1 & Ht1). fold s1 in Hm1, Hs1, Hp1, Ht1.
    assert (Hl1 : liveTensors s1 = liveTensors s).
    { subst s1. unfold predictRating.
      destruct (negb (truthy userId) || negb (truthy movieId)) eqn:Esel; [reflexivity|].
      apply orb_false_iff in Esel as [Eu Em'].
      destruct userId as [|c1 userId]; [discriminate|].
      destruct movieId as [|c2 movieId]; [discriminate|].
      pose proof (predictRating_tensors c1 userId c2 movieId (Score score) s Hf Hm)
        as [_ Hl].
      unfold predictRating in Hl. cbn [truthy negb orb] in Hl. exact Hl. }
    assert (Hf1 : tensorsFresh s1).
    { apply (step_fresh s (PredictClick userId movieId (Score score))). exact Hf. }
    destruct (IH s1 Hf1) as (H1 & H2 & H3 & H4 & H5); [rewrite Hm1; exact Hm|].
    rewrite H1, H2, H3, H4, H5, Hl1, Hm1, Hs1, Hp1, Ht1. repeat split.
Qed.


(** X1.  [predictRating] never touches the model variable, the loaded
    data, the status line, the progress bar or the suspended [trainModel],
    whatever the selection and whatever the engine answers; when a
    dropdown is empty or no model is set it does not create a tensor
    either. *)
Theorem predictRating_leaves_training_alone :
  forall (userId movieId : jsstring) (answer : PredictAnswer) (s : Session),
    (model (predictRating userId movieId answer s) = model s
     /\ globals (predictRating userId movieId answer s) = globals s
     /\ status (predictRating userId movieId answer s) = status s
     /\ progress (predictRating userId movieId answer s) = progress s
     /\ training (predictRating userId movieId answer s) = training s)
    /\ (userId = [] \/ movieId = [] \/ model s = None ->
        liveTensors (predictRating userId movieId answer s) = liveTensors s
        /\ nextTensor (predictRating userId movieId answer s) = nextTensor s
        /\ (result (predictRating userId movieId answer s) = ResSelectBoth
            \/ result (predictRating userId movieId answer s) = ResNotReady)).
Proof.
  intros userId movieId answer s. split; [apply predictRating_frame|].
  intros Hcase. unfold predictRating.
  destruct (negb (truthy userId) || negb (truthy movieId)) eqn:Esel.
  - cbn. tauto.
  - apply orb_false_iff in Esel as [Eu Em].
    destruct Hcase as [-> | [-> | Hm]]; [discriminate | discriminate |].
    rewrite Hm. cbn. tauto.
Qed.

(** X2.  Tensor accounting of one prediction.  In a session whose tensor
    ids are fresh and whose model variable is set, a prediction that the
    engine answers with a score releases its three tensors, also when the
    movie lookup fails afterwards; when [model.predict] throws, the two
    input tensors stay in the engine, and when [prediction.data()]
    rejects, the prediction tensor stays as well. *)
Theorem predictRating_tensor_balance
    (c1 : N) (userId : jsstring) (c2 : N) (movieId : jsstring)
    (answer : PredictAnswer) (s : Session) :
  tensorsFresh s -> is_Some (model s) ->
  tensorsFresh (predictRating (c1 :: userId) (c2 :: movieId) answer s)
  /\ liveTensors (predictRating (c1 :: userId) (c2 :: movieId) answer s)
     = match answer with
       | Score _ => liveTensors s
       | PredictThrows _ =>
           liveTensors s ∪ {[nextTensor s; S (nextTensor s)]}
       | DataRejects _ =>
           liveTensors s ∪ {[nextTensor s; S (nextTensor s); S (S (nextTensor s))]}
       end.
Proof. apply predictRating_tensors. Qed.

Lemma predictRating_tensor_balance_witness :
  tensorsFresh (trainModel_start None (initialSession tinyGlobals))
  /\ is_Some (model (trainModel_start None (initialSession tinyGlobals)))
  /\ liveTensors (predictRating (js "1") (js "1") (DataRejects TextRejected)
                    (trainModel_start None (initialSession tinyGlobals)))
     = liveTensors (trainModel_start None (initialSession tinyGlobals))
       ∪ {[3%nat; 4%nat; 5%nat]}.
Proof.
  assert (Hf : tensorsFresh (trainModel_start None (initialSession tinyGlobals)))
    by apply trainModel_start_fresh.
  assert (Hm : is_Some (model (trainModel_start None (initialSession tinyGlobals))))
    by (eexists; reflexivity).
  split; [exact Hf|]. split; [exact Hm|].
  apply (predictRating_tensor_balance 49%N [] 49%N [] (DataRejects TextRejected)
           (trainModel_start None (initialSession tinyGlobals)) Hf Hm).
Defined.

(** X3.  Once [trainModel] has created the model, no sequence of events
    (epochs, the fit promise settling either way, clicks on the predict
    button with any answer of the engine) unsets the model variable: a
    request with both dropdowns chosen is never again answered with
    'Model is not ready yet'. *)
Theorem model_never_unset :
  forall (g : Globals) (evs : list Event)
         (c1 : N) (userId : jsstring) (c2 : N) (movieId : jsstring)
         (answer : PredictAnswer),
    is_Some (model (run (trainModel_start None (initialSession g)) evs))
    /\ result (predictRating (c1 :: userId) (c2 :: movieId) answer
                 (run (trainModel_start None (initialSession g)) evs))
       <> ResNotReady.
Proof.
  intros g evs c1 userId c2 movieId answer.
  assert (Hm : is_Some (model (run (trainModel_start None (initialSession g)) evs))).
  { apply run_keeps_model. eexists; reflexivity. }
  split; [exact Hm|]. apply predictRating_with_model. exact Hm.
Qed.

(** X4.  When [createModel()] throws, [trainModel] reports the failure
    and returns without a model and without a tensor; whatever happens
    afterwards, the model variable stays unset, the engine holds no
    tensor, the status line keeps the failure and every request with both
    dropdowns chosen is answered with 'Model is not ready yet'. *)
Theorem createModel_failure_blocks_predictions :
  forall (g : Globals) (e : Error) (evs : list Event)
         (c1 : N) (userId : jsstring) (c2 : N) (movieId : jsstring)
         (answer : PredictAnswer),
    model (run (trainModel_start (Some e) (initialSession g)) evs) = None
    /\ liveTensors (run (trainModel_start (Some e) (initialSession g)) evs) = ∅
    /\ status (run (trainModel_start (Some e) (initialSession g)) evs)
       = StTrainingFailed e
    /\ result (predictRating (c1 :: userId) (c2 :: movieId) answer
                 (run (trainModel_start (Some e) (initialSession g)) evs))
       = ResNotReady.
Proof.
  intros g e evs c1 userId c2 movieId answer.
  assert (H : forall s,
             model s = None -> training s = TrainReturned -> liveTensors s = ∅ ->
             model (run s evs) = None /\ liveTensors (run s evs) = ∅
             /\ status (run s evs) = status s).
  { induction evs as [|ev evs IH]; intros s Hm Ht Hl; [tauto|].
    destruct (step_keeps_no_model s ev Hm Ht Hl) as (Hm' & Ht' & Hl' & Hs').
    change (run s (ev :: evs)) with (run (step s ev) evs).
    destruct (IH (step s ev) Hm' Ht' Hl') as (H1 & H2 & H3).
    rewrite H3, Hs'. tauto. }
  destruct (H (trainModel_start (Some e) (initialSession g)))
    as (Hm & Hl & Hs); try reflexivity.
  split; [exact Hm|]. split; [exact Hl|]. split; [exact Hs|].
  rewrite predictRating_without_model by exact Hm. reflexivity.
Qed.

(** X5.  A training run that completes: after any number of epochs and
    the fit promise resolving, followed by any number of predictions that
    the engine answers with a score, [trainModel] has returned, the status
    line reads 'Model training completed!', the progress bar is at 100,
    the model carries one update per epoch and the engine holds no
    tensor. *)
Theorem completed_run_is_clean :
  forall (g : Globals) (epochs : list (nat * Number))
         (clicks : list (jsstring * jsstring * Number)),
    training (run (trainModel_start None (initialSession g))
                  (epochEvents epochs ++ [FitResolved] ++ scoreClicks clicks))
    = TrainReturned
    /\ status (run (trainModel_start None (initialSession g))
                   (epochEvents epochs ++ [FitResolved] ++ scoreClicks clicks))
       = StCompleted
    /\ progress (run (trainModel_start None (initialSession g))
                     (epochEvents epochs ++ [FitResolved] ++ scoreClicks clicks))
       = ofZ 100
    /\ model (run (trainModel_start None (initialSession g))
                  (epochEvents epochs ++ [FitResolved] ++ scoreClicks clicks))
       = Some (mkModel true (length epochs))
    /\ liveTensors (run (trainModel_start None (initialSession g))
                        (epochEvents epochs ++ [FitResolved] ++ scoreClicks clicks))
       = ∅.
Proof.
  intros g epochs clicks.
  destruct (trainModel_start_fitting g) as (Hm & Ht & Hl & _).
  destruct (epochs_preserve epochs _ _ _ _ Ht) as (Ht' & Hl' & _ & _).
  pose proof (epochs_count epochs _ _ _ _ _ Ht Hm) as Hm'.
  pose proof (run_fresh (epochEvents epochs) _ (trainModel_start_fresh None g)) as Hf.
  rewrite !run_app.
  set (s := run (trainModel_start None (initialSession g)) (epochEvents epochs)) in *.
  change (run s [FitResolved]) with (trainModel_resolved s).
  pose proof (step_fresh s FitResolved Hf) as Hf1. cbn [step] in Hf1.
  assert (Hs1 : training (trainModel_resolved s) = TrainReturned
                /\ status (trainModel_resolved s) = StCompleted
                /\ progress (trainModel_resolved s) = ofZ 100
                /\ model (trainModel_resolved s) = Some (mkModel true (length epochs))
                /\ liveTensors (trainModel_resolved s) = ∅).
  { unfold trainModel_resolved. rewrite Ht'. cbn. rewrite Hm', Hl', Hl.
    repeat split. }
  destruct Hs1 as (H1 & H2 & H3 & H4 & H5).
  destruct (scoreClicks_keep clicks (trainModel_resolved s) Hf1)
    as (K1 & K2 & K3 & K4 & K5); [rewrite H4; eexists; reflexivity|].
  rewrite K1, K2, K3, K4, K5. tauto.
Qed.

End SessionInvariants.

(* ===================================================================== *)
(** ** The loaders, case by case *)
(* ===================================================================== *)

Section Loaders.


(** Conversely to [tryUrls_Some]. *)
Lemma tryUrls_first fetch failed url rest text :
  Forall (sourceFails fetch) failed ->
  fetch url = Response true (Some text) ->
  DataFallback.tryUrls fetch (failed ++ url :: rest) = Some text.
Proof.
  intros Hfailed Hurl. induction Hfailed as [|u failed Hu _ IH]; cbn.
  - rewrite Hurl. reflexivity.
  - destruct (fetch u) as [|[|] [t|]] eqn:E; try exact IH.
    exfalso. exact (Hu t E).
Qed.


(** X7.  A source loop of the multi-source loader retrieves a text
    exactly when some source answers after the ones before it have all
    failed, and the text is that of this first answering source: what the
    later sources would do has no influence. *)
Theorem tryUrls_first_answer_wins :
  forall (fetch : Fetch) (urls : list string) (text : jsstring),
    DataFallback.tryUrls fetch urls = Some text
    <-> exists failed url rest,
          urls = failed ++ url :: rest
          /\ Forall (sourceFails fetch) failed
          /\ fetch url = Response true (Some text).
Proof.
  intros fetch urls text. split.
  - apply tryUrls_Some.
  - intros (failed & url & rest & -> & Hfailed & Hurl).
    apply tryUrls_first; assumption.
Qed.

Lemma sampleMovies_ids m :
  1 <= m <= 20 ->
  exists movie, movie ∈ DataFallback.sampleMovies /\ id movie = ofZ m.
Proof.
  intros Hm.
  assert (Hk : exists k, (k < 20)%nat /\ m = Z.of_nat k + 1)
    by (exists (Z.to_nat (m - 1)); lia).
  destruct Hk as (k & Hk & ->).
  assert (Hlookup : exists movie,
             DataFallback.sampleMovies !! k = Some movie
             /\ id movie = ofZ (Z.of_nat k + 1)).
  { clear Hm. do 20 (destruct k as [|k]; [eexists; split; reflexivity|]). lia. }
  destruct Hlookup as (movie & Hl & Hi). exists movie.
  split; [eapply list_elem_of_lookup_2; exact Hl | exact Hi].
Qed.

(** X8.  The synthetic dataset obeys the dimension rule of the parsed
    path and the bounds the embedding tables need: the fixed [numUsers] is
    the maximum user id of the generated ratings, [numMovies] is the
    length of the catalogue, every rated movie is in the catalogue, and
    every user id and movie id lies between 1 and its dimension. *)
Theorem loadSampleData_consistent (rng : Rng) :
  unitRange rng ->
  forall fuel g d g',
    DataFallback.loadSampleData rng fuel g = Some (d, g') ->
    Math_max (userId <$> ds_ratings d) = ds_numUsers d
    /\ ds_numMovies d = ofZ (Z.of_nat (length (ds_movies d)))
    /\ Forall (fun r =>
                 (exists movie, movie ∈ ds_movies d /\ id movie = movieId r)
                 /\ js_le (ofZ 1) (userId r) = true
                 /\ js_le (userId r) (ds_numUsers d) = true
                 /\ js_le (ofZ 1) (movieId r) = true
                 /\ js_le (movieId r) (ds_numMovies d) = true)
              (ds_ratings d).
Proof.
  intros Hrange fuel g d g' H.
  apply (loadSampleData_spec rng Hrange) in H
    as (_ & Hmovies & Hnm & Hnu & _ & Hall & Hper).
  assert (Hle : forall a b, js_le (ofZ a) (ofZ b) = (a <=? b))
    by (intros a b; apply Qle_bool_inject).
  split; [|split].
  - rewrite Hnu.
    destruct (Math_max_spec (userId <$> ds_ratings d)) as [[E _] | [_ [Hin Hmax]]].
    + intros x Hx. apply list_elem_of_fmap in Hx as (r & -> & Hr).
      rewrite Forall_forall in Hall. destruct (Hall r Hr) as (w & _ & -> & _).
      discriminate.
    + exfalso. destruct (Hper 50) as [Hlen _]; [lia|].
      apply fmap_nil_inv in E. rewrite E in Hlen. cbn in Hlen. lia.
    + apply list_elem_of_fmap in Hin as (r & Er & Hr).
      rewrite Forall_forall in Hall. destruct (Hall r Hr) as (w & Hw & Hu & _).
      rewrite Er, Hu. f_equal.
      destruct (Hper 50) as [Hlen _]; [lia|].
      destruct (ratingsOf 50 (ds_ratings d)) as [|r50 rest] eqn:E50;
        [cbn in Hlen; lia|].
      assert (Hr50 : r50 ∈ ratingsOf 50 (ds_ratings d)) by (rewrite E50; left).
      apply list_elem_of_filter in Hr50 as [Hu50 Hin50].
      assert (Hx : js_le (userId r50) (Math_max (userId <$> ds_ratings d)) = true).
      { apply Hmax. apply list_elem_of_fmap. exists r50. split; [reflexivity | exact Hin50]. }
      rewrite Er, Hu, Hu50, Hle in Hx. apply Z.leb_le in Hx.
      f_equal. lia.
  - rewrite Hnm, Hmovies. reflexivity.
  - eapply Forall_impl; [exact Hall|].
    intros r (w & Hw & Hu & m & v & Hm & Hmr & _ & _).
    rewrite Hu, Hm, Hnu, Hnm, !Hle, Hmovies.
    split; [apply sampleMovies_ids; exact Hmr|].
    repeat split; apply Z.leb_le; lia.
Qed.

Lemma loadSampleData_consistent_witness :
  unitRange cyclicRng
  /\ exists d g',
       DataFallback.loadSampleData cyclicRng 30 initialGlobals = Some (d, g')
       /\ Math_max (userId <$> ds_ratings d) = ds_numUsers d.
Proof.
  split; [exact cyclicRng_unitRange|].
  destruct (DataFallback.loadSampleData cyclicRng 30 initialGlobals)
    as [[d g']|] eqn:E.
  - exists d, g'. split; [reflexivity|].
    destruct (loadSampleData_consistent cyclicRng cyclicRng_unitRange
                30%nat initialGlobals d g' E) as [H _].
    exact H.
  - vm_compute in E. discriminate E.
Defined.

End Loaders.

(* ===================================================================== *)
(** ** The parsers, line by line *)
(* ===================================================================== *)

Section ParserComposition.

(** The fields of two strings joined by a separator are the fields of the
    first followed by those of the second. *)
Lemma split_app sep a b : split sep (a ++ sep :: b) = split sep a ++ split sep b.
Proof.
  induction a as [|c a IH]; cbn [app split].
  - rewrite N.eqb_refl. reflexivity.
  - destruct (c =? sep)%N; rewrite IH; [reflexivity|].
    pose proof (split_nonempty sep a) as Hne.
    destruct (split sep a) as [|f fs]; [congruence | reflexivity].
Qed.

Lemma nonBlankLines_app a b :
  nonBlankLines (a ++ LF :: b) = nonBlankLines a ++ nonBlankLines b.
Proof. unfold nonBlankLines. rewrite split_app, filter_app. reflexivity. Qed.

(** X9.  Both parsers work line by line: the records of two texts joined
    by a line feed are the records of the first followed by those of the
    second.  So a line feed at the end of the file, or one at its start,
    changes nothing. *)
Theorem parsers_distribute_over_lines :
  forall a b : jsstring,
    parseItemData (a ++ LF :: b) = parseItemData a ++ parseItemData b
    /\ parseRatingData (a ++ LF :: b) = parseRatingData a ++ parseRatingData b
    /\ parseItemData (a ++ [LF]) = parseItemData a
    /\ parseRatingData (a ++ [LF]) = parseRatingData a
    /\ parseItemData (LF :: b) = parseItemData b
    /\ parseRatingData (LF :: b) = parseRatingData b.
Proof.
  intros a b.
  assert (Hi : forall a b, parseItemData (a ++ LF :: b)
                           = parseItemData a ++ parseItemData b).
  { intros a' b'. unfold parseItemData. rewrite !parseItem_loop. cbn [app].
    rewrite nonBlankLines_app, filter_app, fmap_app. reflexivity. }
  assert (Hr : forall a b, parseRatingData (a ++ LF :: b)
                           = parseRatingData a ++ parseRatingData b).
  { intros a' b'. unfold parseRatingData. rewrite !parseRating_loop. cbn [app].
    rewrite nonBlankLines_app, filter_app, fmap_app. reflexivity. }
  split; [apply Hi|]. split; [apply Hr|].
  split; [rewrite Hi; apply app_nil_r|]. split; [rewrite Hr; apply app_nil_r|].
  split; [apply (Hi [] b) | apply (Hr [] b)].
Qed.

Lemma trimStart_tight_head s :
  match s with [] => True | c :: _ => is_ws c = false end -> trimStart s = s.
Proof. destruct s as [|c s]; [reflexivity|]. cbn. intros ->. reflexivity. Qed.

Lemma tight_trim_fixed s : tight s -> trim s = s.
Proof.
  intros [Hhead Hlast]. unfold trim, trimEnd.
  rewrite (trimStart_tight_head s Hhead).
  rewrite (trimStart_tight_head (reverse s)); [apply reverse_involutive|].
  unfold endsNonBlank in Hlast.
  destruct (last s) as [x|] eqn:El.
  - apply last_Some in El as (l' & ->). rewrite reverse_snoc. exact Hlast.
  - apply last_None in El. subst s. exact I.
Qed.

Lemma trimStart_suffix s : exists w, s = w ++ trimStart s /\ blank w.
Proof.
  induction s as [|c s (w & Hs & Hw)]; [exists []; split; [reflexivity|constructor]|].
  cbn [trimStart]. destruct (is_ws c) eqn:E.
  - exists (c :: w). split; [cbn; f_equal; exact Hs | constructor; assumption].
  - exists []. split; [reflexivity | constructor].
Qed.

Lemma head_nonblank_trimStart s :
  match trimStart s with [] => True | c :: _ => is_ws c = false end.
Proof.
  destruct (trimStart_blank_or_head s) as [-> | (c & r & -> & Hc)]; [exact I | exact Hc].
Qed.

Lemma trim_tight s : tight (trim s).
Proof.
  unfold trim, trimEnd. set (t := trimStart s).
  pose proof (head_nonblank_trimStart s) as Ht. fold t in Ht.
  destruct (trimStart_suffix (reverse t)) as (w & Hrev & _).
  set (u := trimStart (reverse t)) in *.
  pose proof (head_nonblank_trimStart (reverse t)) as Hu. fold u in Hu.
  assert (Et : t = reverse u ++ reverse w).
  { rewrite <- reverse_app, <- Hrev, reverse_involutive. reflexivity. }
  split.
  - destruct (reverse u) as [|c r] eqn:E; [exact I|].
    rewrite Et in Ht. exact Ht.
  - unfold endsNonBlank. destruct u as [|c r]; [exact I|].
    rewrite reverse_cons, last_snoc. exact Hu.
Qed.

(** [stripYear] cuts a suffix off: nothing, or white space and a year,
    and in the second case what is left does not end with white space. *)
Lemma stripYear_cut s :
  stripYear s = s
  \/ exists w y, s = stripYear s ++ w ++ y /\ blank w /\ isYear y
                 /\ endsNonBlank (stripYear s).
Proof.
  induction s as [|c s IH]; [left; reflexivity|].
  cbn [stripYear]. destruct (matchYear (c :: s)) eqn:E.
  - right. apply matchYear_inv in E as (w & y & E & Hw & Hy).
    exists w, y. repeat split; assumption.
  - destruct IH as [IH | (w & y & Hs & Hw & Hy & Hend)].
    + left. rewrite IH. reflexivity.
    + right. exists w, y. split; [cbn; f_equal; exact Hs|].
      split; [exact Hw|]. split; [exact Hy|].
      unfold endsNonBlank in *. destruct (stripYear s) as [|c' r] eqn:Es.
      * cbn. cbn in Hs. rewrite Hs in E. cbn [matchYear] in E.
        apply orb_false_iff in E as [_ E]. apply andb_false_iff in E as [E | E];
          [exact E|].
        rewrite matchYear_blank_year in E by assumption. discriminate.
      * rewrite last_cons. destruct (last (c' :: r)) eqn:El; [exact Hend|].
        apply last_None in El. discriminate El.
Qed.

Lemma stripYear_tight s : tight s -> tight (stripYear s).
Proof.
  intros [Hhead Hlast].
  destruct (stripYear_cut s) as [E | (w & y & E & _ & _ & Hend)].
  - rewrite E. split; assumption.
  - split; [|exact Hend].
    destruct (stripYear s) as [|c r]; [exact I|].
    rewrite E in Hhead. exact Hhead.
Qed.

(** X10.  Every title [parseItemData] stores is clean: trimming it again
    changes nothing; it is empty, or it starts and ends with a character
    that is not white space.  Removing the year leaves no blank behind. *)
Theorem parsed_titles_are_trimmed :
  forall (text : jsstring) (m : Movie),
    m ∈ parseItemData text ->
    trim (title m) = title m
    /\ (title m = [] \/ exists c r x, title m = c :: r /\ is_ws c = false
                                      /\ last (title m) = Some x /\ is_ws x = false).
Proof.
  intros text m Hm. unfold parseItemData in Hm. rewrite parseItem_loop in Hm.
  cbn [app] in Hm. apply list_elem_of_fmap in Hm as (line & -> & _).
  cbn [movieOfLine title].
  pose proof (stripYear_tight _ (trim_tight (field PIPE 1 line))) as Ht.
  split; [apply tight_trim_fixed; exact Ht|].
  destruct Ht as [Hhead Hlast]. unfold endsNonBlank in Hlast.
  destruct (stripYear (trim (field PIPE 1 line))) as [|c r] eqn:E; [left; reflexivity|].
  right. destruct (last (c :: r)) as [x|] eqn:El.
  - exists c, r, x. repeat split; assumption.
  - apply last_None in El. discriminate.
Qed.

Lemma parsed_titles_are_trimmed_witness :
  mkMovie (ofZ 1) (js "Toy Story") ∈ parseItemData (js "1|Toy Story (1995)|01-Jan-1995")
  /\ trim (js "Toy Story") = js "Toy Story".
Proof.
  assert (H : mkMovie (ofZ 1) (js "Toy Story")
              ∈ parseItemData (js "1|Toy Story (1995)|01-Jan-1995"))
    by (vm_compute; left).
  split; [exact H|].
  exact (proj1 (parsed_titles_are_trimmed (js "1|Toy Story (1995)|01-Jan-1995")
                  (mkMovie (ofZ 1) (js "Toy Story")) H)).
Defined.

End ParserComposition.

(* ===================================================================== *)
(** ** Line ends *)
(* ===================================================================== *)

Section LineEnds.

Lemma blank_snoc_CR l : blank (l ++ [CR]) <-> blank l.
Proof.
  unfold blank. rewrite Forall_app. split; [tauto|].
  intros H. split; [exact H|]. constructor; [reflexivity | constructor].
Qed.

Lemma split_snoc sep c l :
  (c =? sep)%N = false -> split sep (l ++ [c]) = snocLast c (split sep l).
Proof.
  intros Hc. induction l as [|x l IH]; cbn [app split].
  - rewrite Hc. reflexivity.
  - pose proof (split_nonempty sep l) as Hne.
    destruct (x =? sep)%N; rewrite IH.
    + destruct (split sep l); [congruence | reflexivity].
    + destruct (split sep l) as [|f [|f' fs]]; [congruence | reflexivity | reflexivity].
Qed.

Lemma snocLast_length c fs : length (snocLast c fs) = length fs.
Proof.
  induction fs as [|f fs IH]; [reflexivity|].
  destruct fs as [|f' fs]; [reflexivity|].
  change (snocLast c (f :: f' :: fs)) with (f :: snocLast c (f' :: fs)).
  cbn [length]. rewrite IH. reflexivity.
Qed.

Lemma trimStart_snoc s c :
  ~ blank s -> trimStart (s ++ [c]) = trimStart s ++ [c].
Proof.
  induction s as [|x s IH]; intros Hnb.
  - exfalso. apply Hnb. constructor.
  - cbn [app trimStart]. destruct (is_ws x) eqn:E; [|reflexivity].
    apply IH. intros Hb. apply Hnb. constructor; assumption.
Qed.

Lemma trimEnd_snoc_ws s c : is_ws c = true -> trimEnd (s ++ [c]) = trimEnd s.
Proof.
  intros Hc. unfold trimEnd. rewrite reverse_snoc. cbn [trimStart]. rewrite Hc.
  reflexivity.
Qed.

Lemma trim_snoc_ws s c : is_ws c = true -> trim (s ++ [c]) = trim s.
Proof.
  intros Hc. unfold trim. destruct (decide (blank s)) as [Hb | Hnb].
  - assert (Hb' : blank (s ++ [c])).
    { apply Forall_app. split; [exact Hb|]. constructor; [exact Hc | constructor]. }
    apply trimStart_nil in Hb, Hb'. rewrite Hb, Hb'. reflexivity.
  - rewrite trimStart_snoc by exact Hnb. apply trimEnd_snoc_ws. exact Hc.
Qed.

Lemma span_snoc_CR s :
  span is_digit (s ++ [CR])
  = ((span is_digit s).1, (span is_digit s).2 ++ [CR]).
Proof.
  induction s as [|c s IH]; [reflexivity|].
  cbn [app span]. destruct (is_digit c); [|reflexivity].
  rewrite IH. destruct (span is_digit s). reflexivity.
Qed.

Lemma exponentPart_snoc_CR s : exponentPart (s ++ [CR]) = exponentPart s.
Proof.
  destruct s as [|e r]; [reflexivity|]. cbn [app exponentPart].
  destruct ((e =? 101) || (e =? 69))%N; [|reflexivity].
  destruct r as [|c r0]; [reflexivity|]. cbn [app].
  destruct (c =? MINUS)%N; [|destruct (c =? PLUS)%N].
  - rewrite span_snoc_CR. reflexivity.
  - rewrite span_snoc_CR. reflexivity.
  - change (c :: r0 ++ [CR]) with ((c :: r0) ++ [CR]).
    rewrite span_snoc_CR. reflexivity.
Qed.

Lemma take_Infinity_snoc_CR s :
  take 8 (s ++ [CR]) = js "Infinity" <-> take 8 s = js "Infinity".
Proof.
  destruct s as [|c1 [|c2 [|c3 [|c4 [|c5 [|c6 [|c7 [|c8 r]]]]]]]];
    cbn; split; intros H; try discriminate H; try exact H.
Qed.

Lemma parseFloat_snoc_CR f : parseFloat (f ++ [CR]) = parseFloat f.
Proof.
  unfold parseFloat. destruct (decide (blank f)) as [Hb | Hnb].
  - assert (Hb' : blank (f ++ [CR])) by (apply blank_snoc_CR; exact Hb).
    apply trimStart_nil in Hb, Hb'. rewrite Hb, Hb'. reflexivity.
  - rewrite trimStart_snoc by exact Hnb.
    assert (Hne : trimStart f <> []) by (intros E; apply Hnb, trimStart_nil, E).
    destruct (trimStart f) as [|c r]; [congruence|]. cbn [app].
    assert (Hbody : forall s2 : jsstring,
               (take 8 (s2 ++ [CR]) = js "Infinity" <-> take 8 s2 = js "Infinity")
               /\ (let '(ip, r1) := span is_digit (s2 ++ [CR]) in
                   let '(fp, r2) :=
                     match r1 with
                     | c :: r => if (c =? DOT)%N then span is_digit r else ([], r1)
                     | [] => ([], r1)
                     end in
                   (ip ++ fp, exponentPart r2, length fp))
                  = (let '(ip, r1) := span is_digit s2 in
                     let '(fp, r2) :=
                       match r1 with
                       | c :: r => if (c =? DOT)%N then span is_digit r else ([], r1)
                       | [] => ([], r1)
                       end in
                     (ip ++ fp, exponentPart r2, length fp))).
    { intros s2. split; [apply take_Infinity_snoc_CR|].
      rewrite span_snoc_CR. destruct (span is_digit s2) as [ip r1]. cbn [fst snd].
      destruct r1 as [|c' r']; cbn [app].
      - reflexivity.
      - destruct (c' =? DOT)%N.
        + rewrite span_snoc_CR. destruct (span is_digit r') as [fp r2]. cbn [fst snd].
          rewrite exponentPart_snoc_CR. reflexivity.
        + change (c' :: r' ++ [CR]) with ((c' :: r') ++ [CR]).
          rewrite exponentPart_snoc_CR. reflexivity. }
    assert (Hfin : forall (neg : bool) (s2 : jsstring),
               (if decide (take 8 (s2 ++ [CR]) = js "Infinity")
                then (if neg then NInf else PInf)
                else
                  let '(ip, r1) := span is_digit (s2 ++ [CR]) in
                  let '(fp, r2) :=
                    match r1 with
                    | c :: r => if (c =? DOT)%N then span is_digit r else ([], r1)
                    | [] => ([], r1)
                    end in
                  match ip ++ fp with
                  | [] => NaN
                  | ds =>
                      let m := decValue ds in
                      let e := exponentPart r2 - Z.of_nat (length fp) in
                      Fin ((inject_Z (if neg then - m else m)) * pow10 e)
                  end)
               = (if decide (take 8 s2 = js "Infinity")
                  then (if neg then NInf else PInf)
                  else
                    let '(ip, r1) := span is_digit s2 in
                    let '(fp, r2) :=
                      match r1 with
                      | c :: r => if (c =? DOT)%N then span is_digit r else ([], r1)
                      | [] => ([], r1)
                      end in
                    match ip ++ fp with
                    | [] => NaN
                    | ds =>
                        let m := decValue ds in
                        let e := exponentPart r2 - Z.of_nat (length fp) in
                        Fin ((inject_Z (if neg then - m else m)) * pow10 e)
                    end)).
    { intros neg s2. destruct (Hbody s2) as [Hinf Hparts].
      destruct (decide (take 8 (s2 ++ [CR]) = js "Infinity")) as [E | E];
        destruct (decide (take 8 s2 = js "Infinity")) as [E' | E'];
        [reflexivity | exfalso; apply E', Hinf, E
        | exfalso; apply E, Hinf, E' |].
      destruct (span is_digit (s2 ++ [CR])) as [ip r1].
      destruct (span is_digit s2) as [ip' r1'].
      destruct (match r1 with
                | c :: r => if (c =? DOT)%N then span is_digit r else ([], r1)
                | [] => ([], r1)
                end) as [fp r2].
      destruct (match r1' with
                | c :: r => if (c =? DOT)%N then span is_digit r else ([], r1')
                | [] => ([], r1')
                end) as [fp' r2'].
      injection Hparts as H1 H2 H3. rewrite H1, H2, H3. reflexivity. }
    destruct (c =? MINUS)%N; [exact (Hfin true r)|].
    destruct (c =? PLUS)%N; [exact (Hfin false r)|].
    exact (Hfin false (c :: r)).
Qed.

Lemma fieldCount_snoc_CR sep l :
  (CR =? sep)%N = false -> fieldCount sep (l ++ [CR]) = fieldCount sep l.
Proof.
  intros H. unfold fieldCount. rewrite split_snoc by exact H. apply snocLast_length.
Qed.

Lemma movieOfLine_snoc_CR l :
  (2 <= fieldCount PIPE l)%nat -> movieOfLine (l ++ [CR]) = movieOfLine l.
Proof.
  unfold movieOfLine, field, fieldCount. rewrite split_snoc by reflexivity.
  destruct (split PIPE l) as [|f0 [|f1 [|f2 fs]]]; cbn [length]; intros H; try lia.
  - cbn [snocLast nth]. rewrite trim_snoc_ws by reflexivity. reflexivity.
  - reflexivity.
Qed.

Lemma ratingOfLine_snoc_CR l :
  (3 <= fieldCount TAB l)%nat -> ratingOfLine (l ++ [CR]) = ratingOfLine l.
Proof.
  unfold ratingOfLine, field, fieldCount. rewrite split_snoc by reflexivity.
  destruct (split TAB l) as [|f0 [|f1 [|f2 [|f3 fs]]]]; cbn [length]; intros H; try lia.
  - cbn [snocLast nth]. rewrite parseFloat_snoc_CR. reflexivity.
  - reflexivity.
Qed.

Lemma split_crlf s : split LF (crlf s) = addCR (split LF s).
Proof.
  induction s as [|c s IH]; [reflexivity|].
  pose proof (split_nonempty LF s) as Hne.
  cbn [crlf split]. destruct (c =? LF)%N eqn:E.
  - cbn [split]. change (CR =? LF)%N with false. change (LF =? LF)%N with true.
    cbn iota. rewrite IH.
    destruct (split LF s) as [|f fs]; [congruence | reflexivity].
  - cbn [split]. rewrite E, IH.
    destruct (split LF s) as [|f [|f' fs]]; [congruence | reflexivity | reflexivity].
Qed.

Lemma items_addCR ls :
  movieOfLine <$> filter (fun line => (2 <= fieldCount PIPE line)%nat)
                    (filter (fun line => ~ blank line) (addCR ls))
  = movieOfLine <$> filter (fun line => (2 <= fieldCount PIPE line)%nat)
                      (filter (fun line => ~ blank line) ls).
Proof.
  induction ls as [|l ls IH]; [reflexivity|].
  destruct ls as [|l' ls]; [reflexivity|].
  change (addCR (l :: l' :: ls)) with ((l ++ [CR]) :: addCR (l' :: ls)).
  rewrite !(filter_cons _ (l ++ [CR])), !(filter_cons _ l (l' :: ls)).
  destruct (decide (~ blank (l ++ [CR]))) as [Hb | Hb];
    destruct (decide (~ blank l)) as [Hb' | Hb'];
    try (exfalso; rewrite blank_snoc_CR in Hb; tauto); [|exact IH].
  rewrite !filter_cons, fieldCount_snoc_CR by reflexivity.
  destruct (decide (2 <= fieldCount PIPE l)%nat) as [H2 | H2]; [|exact IH].
  rewrite !fmap_cons, IH, movieOfLine_snoc_CR by exact H2. reflexivity.
Qed.

Lemma ratings_addCR ls :
  ratingOfLine <$> filter (fun line => (3 <= fieldCount TAB line)%nat)
                     (filter (fun line => ~ blank line) (addCR ls))
  = ratingOfLine <$> filter (fun line => (3 <= fieldCount TAB line)%nat)
                       (filter (fun line => ~ blank line) ls).
Proof.
  induction ls as [|l ls IH]; [reflexivity|].
  destruct ls as [|l' ls]; [reflexivity|].
  change (addCR (l :: l' :: ls)) with ((l ++ [CR]) :: addCR (l' :: ls)).
  rewrite !(filter_cons _ (l ++ [CR])), !(filter_cons _ l (l' :: ls)).
  destruct (decide (~ blank (l ++ [CR]))) as [Hb | Hb];
    destruct (decide (~ blank l)) as [Hb' | Hb'];
    try (exfalso; rewrite blank_snoc_CR in Hb; tauto); [|exact IH].
  rewrite !filter_cons, fieldCount_snoc_CR by reflexivity.
  destruct (decide (3 <= fieldCount TAB l)%nat) as [H3 | H3]; [|exact IH].
  rewrite !fmap_cons, IH, ratingOfLine_snoc_CR by exact H3. reflexivity.
Qed.

(** X11.  The parsers accept Windows line ends: a text whose lines end in
    carriage return and line feed gives the same movies and the same
    ratings as the text with bare line feeds.  The carriage return is
    white space to [trim] and to the blank-line filter, and it stops
    [parseFloat] after the number. *)
Theorem parsers_accept_windows_line_ends :
  forall text : jsstring,
    parseItemData (crlf text) = parseItemData text
    /\ parseRatingData (crlf text) = parseRatingData text.
Proof.
  intros text. unfold parseItemData, parseRatingData.
  rewrite !parseItem_loop, !parseRating_loop, !nonBlankLines_spec, split_crlf.
  cbn [app]. rewrite items_addCR, ratings_addCR. split; reflexivity.
Qed.

End LineEnds.

(* ===================================================================== *)
(** ** Printing and parsing ids; the dropdowns *)
(* ===================================================================== *)

Section Digits.

Lemma decValue_fold ds : decValue ds = fold_left decStep ds 0.
Proof. reflexivity. Qed.

Lemma of_uint_acc_value u : forall acc,
  Z.pos (Pos.of_uint_acc u acc) = fold_left decStep (digitsOfUint u) (Z.pos acc).
Proof.
  induction u as [|u IH|u IH|u IH|u IH|u IH|u IH|u IH|u IH|u IH|u IH]; intros acc;
    cbn [Pos.of_uint_acc digitsOfUint fold_left]; [reflexivity|..];
    rewrite IH; f_equal; unfold decStep, digitVal; cbn; lia.
Qed.

Lemma of_uint_value u :
  Z.of_N (Pos.of_uint u) = fold_left decStep (digitsOfUint u) 0.
Proof.
  induction u as [|u IH|u IH|u IH|u IH|u IH|u IH|u IH|u IH|u IH|u IH];
    cbn [Pos.of_uint digitsOfUint fold_left]; [reflexivity | exact IH |..];
    cbn [Z.of_N]; rewrite of_uint_acc_value; reflexivity.
Qed.

Lemma digitsOfUint_digits u : Forall (fun c => is_digit c = true) (digitsOfUint u).
Proof.
  induction u; cbn [digitsOfUint]; constructor; (reflexivity || assumption).
Qed.

Lemma decimalDigits_spec n :
  0 <= n ->
  decValue (decimalDigits n) = n
  /\ Forall (fun c => is_digit c = true) (decimalDigits n)
  /\ decimalDigits n <> [].
Proof.
  intros Hn. unfold decimalDigits. split; [|split].
  - rewrite decValue_fold, <- of_uint_value.
    change (Pos.of_uint (N.to_uint (Z.to_N n))) with (N.of_uint (N.to_uint (Z.to_N n))).
    rewrite DecimalN.Unsigned.of_to. lia.
  - apply digitsOfUint_digits.
  - intros E. destruct (Z.to_N n) as [|p] eqn:En; [discriminate E|].
    pose proof (DecimalN.Unsigned.of_to (N.pos p)) as Hof.
    destruct (N.to_uint (N.pos p)); try discriminate E. discriminate Hof.
Qed.

Lemma parseInt_neg_digits ds :
  ds <> [] -> Forall (fun c => is_digit c = true) ds ->
  parseInt (MINUS :: ds) = ofZ (- decValue ds).
Proof.
  intros Hne Hds. destruct ds as [|c ds]; [congruence|].
  inversion Hds as [|? ? Hc Hrest]; subst.
  pose proof (span_digits _ Hds) as Hspan.
  assert (Hhex : match c :: ds with
                 | z :: x :: r =>
                     if ((z =? 48) && ((x =? 120) || (x =? 88)))%N
                     then (true, r) else (false, c :: ds)
                 | _ => (false, c :: ds)
                 end = (false, c :: ds)).
  { destruct ds as [|x r]; [reflexivity|].
    inversion Hrest as [|? ? Hx _]; subst. apply is_digit_cases in Hx.
    assert (Ex : ((x =? 120) || (x =? 88))%N = false).
    { repeat (apply elem_of_cons in Hx as [-> | Hx]; [reflexivity|]). inversion Hx. }
    rewrite Ex, andb_false_r. reflexivity. }
  unfold parseInt.
  change (trimStart (MINUS :: c :: ds)) with (MINUS :: c :: ds).
  lazy beta iota zeta delta [N.eqb Pos.eqb MINUS PLUS].
  lazy beta iota zeta delta [N.eqb Pos.eqb] in Hhex.
  rewrite Hhex. cbn iota beta zeta. rewrite Hspan. reflexivity.
Qed.

(** Printing an integer and parsing it back gives the integer. *)
Lemma numberToString_parseInt z :
  Z.abs z < 10 ^ 21 ->
  exists v, numberToString (ofZ z) = Some v /\ truthy v = true
            /\ parseInt v = ofZ z.
Proof.
  intros Hz. unfold numberToString, ofZ, isInteger.
  rewrite Qfloor_Z.
  assert (E1 : Qeq_bool (inject_Z z) (inject_Z z) = true)
    by (apply Qeq_bool_iff; reflexivity).
  rewrite E1. assert (E2 : (Z.abs z <? 10 ^ 21) = true) by (apply Z.ltb_lt; exact Hz).
  rewrite E2. cbn [andb].
  destruct (decimalDigits_spec (Z.abs z)) as (Hv & Hd & Hne); [lia|].
  destruct (z <? 0) eqn:Eneg.
  - apply Z.ltb_lt in Eneg. eexists. split; [reflexivity|]. split; [reflexivity|].
    cbn [app]. rewrite parseInt_neg_digits by assumption. rewrite Hv.
    unfold ofZ. f_equal. f_equal. lia.
  - apply Z.ltb_ge in Eneg. eexists. split; [reflexivity|]. cbn [app]. split.
    + destruct (decimalDigits (Z.abs z)); [congruence | reflexivity].
    + rewrite parseInt_digits by assumption. rewrite Hv.
      unfold ofZ. f_equal. f_equal. lia.
Qed.

End Digits.

Section Dropdowns.

Lemma populateMovieDropdown_map movies :
  populateMovieDropdown movies = moviePlaceholder :: (movieOption <$> movies).
Proof.
  unfold populateMovieDropdown.
  assert (H : forall acc,
             fold_left (fun options movie => options ++ [movieOption movie]) movies acc
             = acc ++ (movieOption <$> movies)).
  { induction movies as [|m movies IH]; intros acc; cbn.
    - rewrite app_nil_r. reflexivity.
    - rewrite IH, <- app_assoc. reflexivity. }
  rewrite H. reflexivity.
Qed.

(** [Array.prototype.find] returns the first element that satisfies the
    test. *)
Lemma find_first {A} (p : A -> bool) (l : list A) (m : A) :
  List.find p l = Some m
  <-> exists before after,
        l = before ++ m :: after /\ p m = true
        /\ Forall (fun x => p x = false) before.
Proof.
  induction l as [|x l IH]; cbn.
  - split; [discriminate|]. intros (before & after & E & _).
    destruct before; discriminate E.
  - destruct (p x) eqn:Ex.
    + split.
      * intros [= <-]. exists [], l. repeat split; [exact Ex | constructor].
      * intros (before & after & E & Hm & Hb).
        destruct before as [|y before]; [injection E as -> _; reflexivity|].
        injection E as -> _. apply Forall_cons in Hb as [Hy _]. congruence.
    + rewrite IH. split.
      * intros (before & after & -> & Hm & Hb).
        exists (x :: before), after. repeat split; [exact Hm|].
        constructor; assumption.
      * intros (before & after & E & Hm & Hb).
        destruct before as [|y before]; [injection E as -> _; congruence|].
        injection E as -> ->. apply Forall_cons in Hb as [_ Hb].
        exists before, after. repeat split; assumption.
Qed.

Lemma js_eq_ofZ a b : js_eq (ofZ a) (ofZ b) = true <-> a = b.
Proof.
  cbn. rewrite Qeq_bool_iff. unfold Qeq. cbn. lia.
Qed.



End Dropdowns.

Section DropdownTheorems.

(** X12.  The movie dropdown has one option per movie after the
    placeholder, in catalogue order.  The value of the option of a movie
    with an integer id is a non-empty string that [parseInt] reads back as
    that id, so [predictRating] finds a movie for it: the first movie of
    the catalogue with this id, which is the selected one when ids are
    unique. *)
Theorem movie_option_finds_first_with_id
    (movies : list Movie) (movie : Movie) (z : Z) :
  movie ∈ movies -> id movie = ofZ z -> Z.abs z < 10 ^ 21 ->
  populateMovieDropdown movies = moviePlaceholder :: (movieOption <$> movies)
  /\ exists v,
       optValue (movieOption movie) = Some v
       /\ truthy v = true
       /\ parseInt v = ofZ z
       /\ exists shown,
            findMovie movies v = Some shown
            /\ firstWithId (ofZ z) movies shown
            /\ ((forall m', m' ∈ movies -> js_eq (id m') (ofZ z) = true -> m' = movie) ->
                shown = movie).
Proof.
  intros Hin Hid Hz. split; [apply populateMovieDropdown_map|].
  destruct (numberToString_parseInt z Hz) as (v & Hv & Ht & Hp).
  exists v. unfold movieOption. cbn [optValue]. rewrite Hid.
  split; [exact Hv|]. split; [exact Ht|]. split; [exact Hp|].
  assert (Hsome : is_Some (findMovie movies v)).
  { unfold findMovie. rewrite Hp.
    destruct (List.find (fun m => js_eq (id m) (ofZ z)) movies) as [m'|] eqn:E;
      [eexists; reflexivity|].
    exfalso. pose proof (find_none _ _ E movie) as Hnone. cbn beta in Hnone.
    rewrite Hid in Hnone.
    assert (Htrue : js_eq (ofZ z) (ofZ z) = true) by (apply js_eq_ofZ; reflexivity).
    rewrite Hnone in Htrue; [discriminate Htrue|].
    apply list_elem_of_In. exact Hin. }
  destruct Hsome as [shown Hshown]. exists shown. split; [exact Hshown|].
  unfold findMovie in Hshown. rewrite Hp in Hshown.
  apply find_first in Hshown as (before & after & E & Hm & Hb).
  split.
  - exists before, after. repeat split; assumption.
  - intros Huniq. apply Huniq; [|exact Hm].
    rewrite E. apply elem_of_app. right. left.
Qed.


Lemma movie_option_finds_first_with_id_witness :
  exists v,
    optValue (movieOption (mkMovie (ofZ 1) (js "Toy Story"))) = Some v
    /\ parseInt v = ofZ 1.
Proof.
  destruct (movie_option_finds_first_with_id
              [mkMovie (ofZ 1) (js "Toy Story")] (mkMovie (ofZ 1) (js "Toy Story")) 1
              (list_elem_of_here _ _) eq_refl eq_refl)
    as (_ & v & Hv & _ & Hp & _).
  exists v. split; [exact Hv | exact Hp].
Defined.



Lemma Qle_bool_floor i q : Qle_bool (inject_Z i) q = (i <=? Qfloor q).
Proof.
  destruct (i <=? Qfloor q) eqn:E.
  - apply Z.leb_le in E. apply Qle_bool_iff.
    apply Qle_trans with (inject_Z (Qfloor q)); [|apply Qfloor_le].
    rewrite <- Zle_Qle. exact E.
  - apply Z.leb_gt in E. apply Qle_bool_false.
    apply Qlt_le_trans with (inject_Z (Qfloor q + 1)); [apply Qlt_floor|].
    rewrite <- Zle_Qle. lia.
Qed.

Lemma userLoop_runs n : forall fuel i q options,
  Z.of_nat n = Z.max 0 (Qfloor q - i + 1) -> (n <= fuel)%nat ->
  userLoop fuel i (Fin q) options
  = Some (options ++ (userOption <$> seqZ i (Z.of_nat n))).
Proof.
  induction n as [|n IH]; intros fuel i q options Hn Hfuel.
  - cbn [seqZ]. assert (Hcond : js_le (ofZ i) (Fin q) = false).
    { cbn. rewrite Qle_bool_floor. apply Z.leb_gt. lia. }
    destruct fuel; cbn [userLoop]; rewrite Hcond; cbn; rewrite app_nil_r; reflexivity.
  - assert (Hcond : js_le (ofZ i) (Fin q) = true).
    { cbn. rewrite Qle_bool_floor. apply Z.leb_le. lia. }
    destruct fuel as [|fuel]; [lia|]. cbn [userLoop]. rewrite Hcond.
    rewrite (IH fuel (i + 1) q) by lia.
    rewrite (seqZ_cons i (Z.of_nat (S n))) by lia.
    replace (Z.pred (Z.of_nat (S n))) with (Z.of_nat n) by lia.
    replace (Z.succ i) with (i + 1) by lia.
    rewrite fmap_cons, <- app_assoc. reflexivity.
Qed.

Lemma userLoop_forever fuel : forall i options, userLoop fuel i PInf options = None.
Proof.
  induction fuel as [|fuel IH]; intros i options; cbn [userLoop]; cbn; [reflexivity|].
  apply IH.
Qed.

Lemma populateUserDropdown_ends numUsers :
  safeCount numUsers ->
  exists fuel options, populateUserDropdown fuel numUsers = Some options.
Proof.
  intros Hsafe. destruct numUsers as [| | |q].
  - exists 0%nat. eexists. reflexivity.
  - destruct Hsafe.
  - exists 0%nat. eexists. reflexivity.
  - exists (Z.to_nat (Qfloor q)). eexists. unfold populateUserDropdown.
    rewrite (userLoop_runs (Z.to_nat (Qfloor q)) _ 1 q) by lia. reflexivity.
Qed.

(** X14.  The user dropdown lists, after the placeholder, the users 1 to
    the integer part of [numUsers], in order, and nothing when [numUsers]
    is below 1, NaN or -Infinity (the [numUsers] of an empty rating file).
    With [numUsers] = +Infinity the loop never ends.  The value of the
    option of user [i] is a non-empty string that [parseInt] reads back as
    [i], and its text is 'User ' followed by that string. *)
Theorem user_dropdown_lists_one_to_numUsers :
  (forall (q : Q) (fuel : nat),
      Qfloor q < 2 ^ 53 ->
      (Z.to_nat (Qfloor q) <= fuel)%nat ->
      populateUserDropdown fuel (Fin q)
      = Some (userPlaceholder :: (userOption <$> seqZ 1 (Z.max 0 (Qfloor q)))))
  /\ (forall fuel,
        populateUserDropdown fuel NaN = Some [userPlaceholder]
        /\ populateUserDropdown fuel NInf = Some [userPlaceholder]
        /\ populateUserDropdown fuel PInf = None)
  /\ (forall i, 1 <= i < 2 ^ 53 ->
        exists v, optValue (userOption i) = Some v /\ truthy v = true
                  /\ parseInt v = ofZ i
                  /\ optText (userOption i) = Some (js "User " ++ v)).
Proof.
  split; [|split].
  - intros q fuel _ Hfuel. unfold populateUserDropdown.
    rewrite (userLoop_runs (Z.to_nat (Qfloor q)) fuel 1 q) by lia.
    replace (Z.of_nat (Z.to_nat (Qfloor q))) with (Z.max 0 (Qfloor q)) by lia.
    reflexivity.
  - intros fuel. split; [|split].
    + destruct fuel; reflexivity.
    + destruct fuel; reflexivity.
    + apply userLoop_forever.
  - intros i Hi. destruct (numberToString_parseInt i) as (v & Hv & Ht & Hp).
    { assert (H : 2 ^ 53 < 10 ^ 21) by reflexivity. lia. }
    exists v. unfold userOption. cbn [optValue optText]. rewrite Hv.
    repeat split; assumption.
Qed.

End DropdownTheorems.

(* ===================================================================== *)
(** ** Page load *)
(* ===================================================================== *)

Section PageLoad.





(** X16.  [window.onload] over the multi-source loader, with a fair
    stream of draws.  Whatever the sources do, the loader returns a
    dataset and leaves it in the global variables; when the sources fail
    this is the synthetic dataset, whose [numUsers] the loop counter can
    reach.  For such a dataset the user loop ends, both dropdowns are
    filled, the button is enabled, and the page is left with the training
    run in flight: the status line never shows a loading error. *)
Theorem onload_with_fallback_reaches_training (rng : Rng) :
  unitRange rng -> fairMovies rng ->
  forall (fetch : Fetch) (g : Globals)
         (users0 movies0 : list SelectOption) (disabled0 : bool) (status0 : PageStatus),
    exists fuelLoad d,
      DataFallback.loadData rng fuelLoad fetch g = Some (Returned d, globalsOf d)
      /\ (DataFallback.tryUrls fetch DataFallback.movieUrls = None
          \/ DataFallback.tryUrls fetch DataFallback.ratingUrls = None ->
          safeCount (ds_numUsers d))
      /\ (safeCount (ds_numUsers d) ->
          exists fuelUsers users,
            populateUserDropdown fuelUsers (ds_numUsers d) = Some users
            /\ onload fuelUsers (Returned d, globalsOf d) None
                 (mkPage (initialSession g) users0 movies0 disabled0 status0)
               = Some (mkPage (trainModel_start None (initialSession (globalsOf d)))
                              users
                              (moviePlaceholder :: (movieOption <$> ds_movies d))
                              false (StFromTraining StStarting))
            /\ fitting (trainModel_start None (initialSession (globalsOf d)))).
Proof.
  intros Hrange Hfair fetch g users0 movies0 disabled0 status0.
  assert (Hload : exists fuel d,
             DataFallback.loadData rng fuel fetch g = Some (Returned d, globalsOf d)
             /\ (DataFallback.tryUrls fetch DataFallback.movieUrls = None
                 \/ DataFallback.tryUrls fetch DataFallback.ratingUrls = None ->
                 safeCount (ds_numUsers d))).
  { destruct (loadData_cases fetch rng 0 g) as [(mt & rt & Hm & Hr & E) | [Hnone _]].
    - exists 0%nat, (storeParsed mt rt).1. split; [exact E|].
      intros [H | H]; congruence.
    - destruct (loadSampleData_returns rng Hrange Hfair g) as (fuel & d & Hd).
      exists fuel, d.
      destruct (loadData_cases fetch rng fuel g)
        as [(mt & rt & Hm & Hr & _) | [_ E]]; [destruct Hnone; congruence|].
      rewrite E, Hd. split; [reflexivity|]. intros _.
      apply (loadSampleData_spec rng Hrange) in Hd as (_ & _ & _ & -> & _).
      unfold safeCount, ofZ. rewrite Qfloor_Z. reflexivity. }
  destruct Hload as (fuelLoad & d & Hd & Hsynthetic).
  exists fuelLoad, d. split; [exact Hd|]. split; [exact Hsynthetic|].
  intros Hsafe.
  destruct (populateUserDropdown_ends (ds_numUsers d) Hsafe) as (fuelUsers & users & Hu).
  exists fuelUsers, users. split; [exact Hu|]. split.
  - unfold onload. cbn [numUsers movies globalsOf].
    rewrite Hu, populateMovieDropdown_map. reflexivity.
  - do 3 eexists. reflexivity.
Qed.

Lemma onload_with_fallback_reaches_training_witness :
  unitRange cyclicRng /\ fairMovies cyclicRng
  /\ exists fuelLoad d,
       DataFallback.loadData cyclicRng fuelLoad offline initialGlobals
       = Some (Returned d, globalsOf d)
       /\ safeCount (ds_numUsers d).
Proof.
  split; [exact cyclicRng_unitRange|]. split; [exact cyclicRng_fair|].
  destruct (onload_with_fallback_reaches_training cyclicRng cyclicRng_unitRange
              cyclicRng_fair offline initialGlobals [] [] true StUntouched)
    as (fuelLoad & d & H1 & H2 & _).
  exists fuelLoad, d. split; [exact H1|]. apply H2. left. reflexivity.
Defined.

End PageLoad.

(* ===================================================================== *)
(** ** From the dropdowns to the display *)
(* ===================================================================== *)

Section HappyPath.

Lemma findMovie_first movies v z movie :
  parseInt v = ofZ z -> movie ∈ movies -> id movie = ofZ z ->
  exists shown, findMovie movies v = Some shown /\ firstWithId (ofZ z) movies shown.
Proof.
  intros Hp Hin Hid. unfold findMovie. rewrite Hp.
  destruct (List.find (fun m => js_eq (id m) (ofZ z)) movies) as [shown|] eqn:E.
  - exists shown. split; [reflexivity|]. apply find_first in E. exact E.
  - exfalso. pose proof (find_none _ _ E movie) as Hnone. cbn beta in Hnone.
    rewrite Hid in Hnone.
    assert (Htrue : js_eq (ofZ z) (ofZ z) = true) by (apply js_eq_ofZ; reflexivity).
    rewrite Hnone in Htrue; [discriminate Htrue|].
    apply list_elem_of_In. exact Hin.
Qed.

(** X17.  A selection made from the dropdowns is displayed.  Once the
    model variable is set, with the option of user [i] and the option of a
    catalogue movie with an integer id selected, a request that the engine
    answers with a score shows the prediction for that user and for the
    title of the first catalogue movie with this id: never 'Please select
    both', 'Model is not ready yet' or a failed lookup. *)
Theorem listed_selection_is_displayed
    (s : Session) (movie : Movie) (z i : Z) (score : Number) :
  is_Some (model s) ->
  movie ∈ movies (globals s) -> id movie = ofZ z -> Z.abs z < 10 ^ 21 ->
  1 <= i < 2 ^ 53 ->
  exists user mv shown,
    optValue (userOption i) = Some user
    /\ optValue (movieOption movie) = Some mv
    /\ firstWithId (ofZ z) (movies (globals s)) shown
    /\ result (predictRating user mv (Score score) s)
       = ResPrediction (displayPrediction user (title shown) score).
Proof.
  intros [m Hm] Hin Hid Hz Hi.
  destruct (numberToString_parseInt i) as (user & Hu & Htu & _).
  { assert (H : 2 ^ 53 < 10 ^ 21) by reflexivity. lia. }
  destruct (numberToString_parseInt z Hz) as (mv & Hv & Htv & Hp).
  destruct (findMovie_first (movies (globals s)) mv z movie Hp Hin Hid)
    as (shown & Hfind & Hfirst).
  exists user, mv, shown. unfold userOption, movieOption. cbn [optValue].
  rewrite Hid. split; [exact Hu|]. split; [exact Hv|]. split; [exact Hfirst|].
  unfold predictRating. rewrite Htu, Htv. cbn [negb orb]. rewrite Hm. cbn.
  rewrite Hfind. reflexivity.
Qed.

Lemma listed_selection_is_displayed_witness :
  exists user mv,
    result (predictRating user mv (Score (ofZ 4))
              (trainModel_start None (initialSession tinyGlobals)))
    = ResPrediction (displayPrediction user (js "Toy Story") (ofZ 4)).
Proof.
  destruct (listed_selection_is_displayed
              (trainModel_start None (initialSession tinyGlobals))
              (mkMovie (ofZ 1) (js "Toy Story")) 1 1 (ofZ 4)
              (ex_intro _ _ eq_refl) (list_elem_of_here _ _) eq_refl eq_refl
              (conj (Z.le_refl 1) eq_refl))
    as (user & mv & shown & _ & _ & Hfirst & Hres).
  exists user, mv. rewrite Hres.
  destruct Hfirst as (before & after & E & _ & _).
  destruct before as [|b before]; [injection E as <- _; reflexivity|].
  destruct before; discriminate E.
Defined.

End HappyPath.
